(** * A shallow embedding of the batch orchestration engine

    The development follows the TypeScript sources:
    - [src/utils/retryHelper.ts]: [withRetry], [isRetryableError],
      [RetryConfigs], the class [CircuitBreaker] and the token bucket
      [RateLimiter];
    - [src/utils/progressTracker.ts]: the class [ProgressTracker];
    - [src/utils/firebase.ts]: the Firestore helpers;
    - [src/processors/emailGenerator.ts]: [generateDepartmentEmails];
    - [src/orchestrator.ts]: the class [Orchestrator].

    Asynchronous code is embedded in a state-and-exception monad over a
    [World]: the state holds the Firestore collections, the clock read by
    [Date.now()], the rate limiter of the orchestrator, the state of the
    external collaborators and a trace of the observable effects.  Numbers
    that the sources compute with fractions (delays, token counts) are
    rationals: IEEE rounding is not part of the model. *)

From Stdlib Require Import ZArith QArith Qminmax Qround Qabs String Ascii List Lia Lqa.
From stdpp Require Import gmap strings list sorting.

(** ** JavaScript values and strings *)

(** A value carried by a [throw] or a rejected promise.  An [Error] instance
    is given by the names of the constructors on its prototype chain and its
    [message]; any other value by its [String(v)] rendering.  [withRetry]
    casts what it catches to [Error] and reads [.message] from it: the values
    [null] and [undefined], on which that read would itself raise, are not
    part of this type. *)
Inductive JsValue : Type :=
| JsError (classes : list string) (message : string)
| JsOther (text : string).

(** [error instanceof Error] *)
Definition instanceofError (error : JsValue) : bool :=
  match error with JsError _ _ => true | JsOther _ => false end.

(** [error instanceof ErrorType], for a constructor given by its name *)
Definition instanceof (error : JsValue) (ErrorType : string) : bool :=
  match error with
  | JsError classes _ => existsb (String.eqb ErrorType) classes
  | JsOther _ => false
  end.

(** [new Error(message)] *)
Definition newError (message : string) : JsValue := JsError ["Error"%string] message.

(** [error instanceof Error ? error.message : String(error)] *)
Definition errorMessageOrString (error : JsValue) : string :=
  match error with JsError _ message => message | JsOther text => text end.

(** [error.message], [None] standing for [undefined] *)
Definition messageOf (error : JsValue) : option string :=
  match error with JsError _ message => Some message | JsOther _ => None end.

(** [String.prototype.toLowerCase] on the ASCII letters; strings are
    sequences of 8-bit code units. *)
Definition lowerAscii (c : ascii) : ascii :=
  let n := nat_of_ascii c in
  if (65 <=? n)%nat && (n <=? 90)%nat then ascii_of_nat (n + 32) else c.

Fixpoint toLowerCase (s : string) : string :=
  match s with
  | EmptyString => EmptyString
  | String c rest => String (lowerAscii c) (toLowerCase rest)
  end.

(** [haystack.includes(needle)] *)
Fixpoint includes (haystack needle : string) : bool :=
  if String.prefix needle haystack then true
  else match haystack with
       | EmptyString => false
       | String _ rest => includes rest needle
       end.

(** How an awaited promise ends: it resolves, it rejects, or it never
    settles. *)
Inductive Outcome (A : Type) : Type :=
| Resolved (a : A)
| Rejected (e : JsValue)
| Pending.
Arguments Resolved {A} a.
Arguments Rejected {A} e.
Arguments Pending {A}.

(** ** [src/types/index.ts] *)

Inductive DistrictStatus := StPending | StProcessing | StCompleted | StFailed.

Inductive EmailStatus := Verified | Invalid | GreylistRetry | Unverified | Generated.

Record District := {
  d_id : string;
  d_cdCode : string;
  d_name : string;
  d_county : string;
  d_type : string;
  d_website : option string;
  d_status : DistrictStatus;
  d_processedAt : option Z;
  d_error : option string;
}.

Record Contact := {
  firstName : string;
  lastName : string;
  title : string;
  email : option string;
  emailStatus : option EmailStatus;
  confidence : option Z;
}.

Record DistrictContacts := {
  dc_districtId : string;
  dc_districtName : string;
  dc_county : string;
  dc_website : option string;
  dc_contacts : list Contact;
  dc_scrapedAt : Z;
}.

#[global] Instance DistrictStatus_eq_dec : EqDecision DistrictStatus.
Proof. solve_decision. Defined.
#[global] Instance EmailStatus_eq_dec : EqDecision EmailStatus.
Proof. solve_decision. Defined.

(** ** [src/utils/progressTracker.ts]: the stored documents *)

Inductive RunStatus := RunRunning | RunCompleted | RunFailed | RunStopped.

Record Stats := {
  total : Z;
  pending : Z;
  processing : Z;
  completed : Z;
  failed : Z;
}.

Record ErrorEntry := {
  ee_districtId : string;
  ee_districtName : string;
  ee_error : string;
  ee_timestamp : Z;
}.

Record CurrentDistrict := {
  cd_id : string;
  cd_name : string;
  cd_startedAt : Z;
}.

Record ScrapeProgress := {
  sp_runId : string;
  sp_startedAt : Z;
  sp_updatedAt : Z;
  sp_completedAt : option Z;
  sp_status : RunStatus;
  stats : Stats;
  errors : list ErrorEntry;
  currentDistrict : option CurrentDistrict;
  sp_fatalError : option string;
}.

Inductive LogStatus := LogSuccess | LogFailed | LogSkipped.

Record DistrictLog := {
  dl_districtId : string;
  dl_districtName : string;
  dl_runId : string;
  dl_status : LogStatus;
  dl_startedAt : Z;
  dl_completedAt : Z;
  dl_duration : Z;
  dl_contactsFound : Z;
  dl_error : option string;
}.

#[global] Instance ErrorEntry_eq_dec : EqDecision ErrorEntry.
Proof. solve_decision. Defined.
#[global] Instance LogStatus_eq_dec : EqDecision LogStatus.
Proof. solve_decision. Defined.

(** ** The Firestore database

    The keyed collections are finite maps from document id to document;
    [district_logs], whose documents get generated ids from [add], is the
    list of its documents in the order they were added. *)
Record Firestore := {
  districts : gmap string District;
  districtContacts : gmap string DistrictContacts;
  scrape_progress : gmap string ScrapeProgress;
  district_logs : list DistrictLog;
}.

(** ** The token buckets of [RateLimiter] *)

Record Bucket := {
  b_tokens : Q;
  b_lastRefill : Z;
}.

Record RateLimiter := {
  tokens : Q;
  lastRefill : Z;
  maxTokens : Q;
  refillRate : Q;
  domainBuckets : gmap string Bucket;
}.

(** ** The state of [CircuitBreaker] *)

Inductive BreakerState := Closed | Open | HalfOpen.

Record CircuitBreaker := {
  failures : Z;
  lastFailureTime : Z;
  state : BreakerState;
  threshold : Z;
  timeout : Z;
}.

#[global] Instance BreakerState_eq_dec : EqDecision BreakerState.
Proof. solve_decision. Defined.

(** ** Worlds, effects and the monad of asynchronous code *)

Inductive LogLevel := LvError | LvWarn | LvInfo | LvDebug.

(** The observable effects, recorded in the order they happen. *)
Inductive Event : Type :=
| EvCall (operation : string) (argument : string)
    (* an external collaborator is entered *)
| EvSleep (ms : Q)
    (* a [setTimeout]-based wait of [ms] milliseconds *)
| EvLog (level : LogLevel) (message : string)
    (* a [logger] call, by its fixed message *)
| EvConsole (text : string)
    (* [console.log] or [console.error], by its fixed text *)
| EvDistrict (event : string) (districtId : string).
    (* [logDistrictStart], [logDistrictComplete] and [logDistrictError] of
       [logger.ts], by the [event] they log *)

Record World (E : Type) := {
  env : E;                     (* what the external collaborators act on *)
  clock : Z;                   (* [Date.now()], in milliseconds *)
  trace : list Event;          (* effects so far, oldest first *)
  db : Firestore;              (* the Firestore behind [firebase.ts] *)
  limiter : RateLimiter;       (* [Orchestrator.rateLimiter] *)
  tracker : option string;     (* the run id of [Orchestrator.progressTracker] *)
}.
Arguments env {E} w.
Arguments clock {E} w.
Arguments trace {E} w.
Arguments db {E} w.
Arguments limiter {E} w.
Arguments tracker {E} w.

Section Monad.
Context {E : Type}.

Definition setEnv (w : World E) (e : E) : World E :=
  {| env := e; clock := clock w; trace := trace w; db := db w;
     limiter := limiter w; tracker := tracker w |}.
Definition setClock (w : World E) (t : Z) : World E :=
  {| env := env w; clock := t; trace := trace w; db := db w;
     limiter := limiter w; tracker := tracker w |}.
Definition record (w : World E) (ev : Event) : World E :=
  {| env := env w; clock := clock w; trace := trace w ++ [ev]; db := db w;
     limiter := limiter w; tracker := tracker w |}.
Definition setDb (w : World E) (d : Firestore) : World E :=
  {| env := env w; clock := clock w; trace := trace w; db := d;
     limiter := limiter w; tracker := tracker w |}.
Definition setLimiter (w : World E) (rl : RateLimiter) : World E :=
  {| env := env w; clock := clock w; trace := trace w; db := db w;
     limiter := rl; tracker := tracker w |}.
Definition setTracker (w : World E) (t : option string) : World E :=
  {| env := env w; clock := clock w; trace := trace w; db := db w;
     limiter := limiter w; tracker := t |}.

Definition M (A : Type) : Type := World E -> Outcome A * World E.

Definition ret {A} (a : A) : M A := fun w => (Resolved a, w).

Definition bind {A B} (m : M A) (k : A -> M B) : M B :=
  fun w =>
    match m w with
    | (Resolved a, w') => k a w'
    | (Rejected e, w') => (Rejected e, w')
    | (Pending, w') => (Pending, w')
    end.

(** [throw e] *)
Definition throw {A} (e : JsValue) : M A := fun w => (Rejected e, w).

(** An [await] that never resumes *)
Definition never {A} : M A := fun w => (Pending, w).

(** [try { body } catch (error) { handler(error) }] *)
Definition tryCatch {A} (body : M A) (handler : JsValue -> M A) : M A :=
  fun w =>
    match body w with
    | (Rejected e, w') => handler e w'
    | r => r
    end.

(** [try { body } finally { cleanup }] *)
Definition tryFinally {A} (body : M A) (cleanup : M unit) : M A :=
  fun w =>
    match body w with
    | (Pending, w') => (Pending, w')
    | (r, w') =>
        match cleanup w' with
        | (Resolved _, w'') => (r, w'')
        | (Rejected e, w'') => (Rejected e, w'')
        | (Pending, w'') => (Pending, w'')
        end
    end.

Definition emit (ev : Event) : M unit := fun w => (Resolved tt, record w ev).

(** [Date.now()] *)
Definition dateNow : M Z := fun w => (Resolved (clock w), w).

(** The time a timer set for [ms] milliseconds takes: the delay is
    truncated to an integer, and is at least one millisecond. *)
Definition timerDelay (ms : Q) : Z := Z.max 1 (Qfloor ms).

(** [await new Promise(resolve => setTimeout(resolve, ms))]: the timer
    fires when its delay has passed. *)
Definition sleep (ms : Q) : M unit :=
  fun w => (Resolved tt, setClock (record w (EvSleep ms)) (clock w + timerDelay ms)).

(** An external collaborator: [operation] is entered with [argument] and
    behaves as [behaviour], a function of the collaborators' own state. *)
Definition call {A} (operation argument : string)
    (behaviour : E -> Outcome A * E) : M A :=
  fun w =>
    let '(r, e') := behaviour (env w) in
    (r, setEnv (record w (EvCall operation argument)) e').

Definition getDb : M Firestore := fun w => (Resolved (db w), w).
Definition putDb (d : Firestore) : M unit := fun w => (Resolved tt, setDb w d).

Definition getLimiter : M RateLimiter := fun w => (Resolved (limiter w), w).
Definition putLimiter (rl : RateLimiter) : M unit := fun w => (Resolved tt, setLimiter w rl).

Definition getTracker : M (option string) := fun w => (Resolved (tracker w), w).
Definition putTracker (t : option string) : M unit := fun w => (Resolved tt, setTracker w t).
End Monad.
Arguments M E A : clear implicits.

Declare Scope js_scope.
Delimit Scope js_scope with js.
Notation "'let*' x ':=' m 'in' k" := (bind m (fun x => k))
  (at level 10, x pattern, m at level 100, k at level 200) : js_scope.
Notation "m '>>' k" := (bind m (fun _ => k))
  (at level 100, k at level 200, right associativity) : js_scope.
Open Scope js_scope.

(** ** [src/utils/retryHelper.ts]: retry with exponential backoff *)

Section RetryHelper.
Context {E : Type}.

(** [interface RetryOptions]: every field is optional.  [maxRetries] is a
    count; [retryableErrors] lists error constructors by name. *)
Record RetryOptions := {
  o_maxRetries : option nat;
  o_initialDelay : option Q;
  o_maxDelay : option Q;
  o_backoffFactor : option Q;
  o_retryableErrors : option (list string);
  o_onRetry : option (JsValue -> nat -> M E unit);
}.

(** [Required<RetryOptions>] *)
Record RequiredRetryOptions := {
  maxRetries : nat;
  initialDelay : Q;
  maxDelay : Q;
  backoffFactor : Q;
  retryableErrors : list string;
  onRetry : JsValue -> nat -> M E unit;
}.

Definition DEFAULT_OPTIONS : RequiredRetryOptions := {|
  maxRetries := 3;
  initialDelay := 1000;
  maxDelay := 30000;
  backoffFactor := 2;
  retryableErrors := [];
  onRetry := fun _ _ => ret tt;
|}.

(** [{ ...DEFAULT_OPTIONS, ...options }] *)
Definition mergeOptions (options : option RetryOptions) : RequiredRetryOptions :=
  match options with
  | None => DEFAULT_OPTIONS
  | Some o => {|
      maxRetries := default (maxRetries DEFAULT_OPTIONS) (o_maxRetries o);
      initialDelay := default (initialDelay DEFAULT_OPTIONS) (o_initialDelay o);
      maxDelay := default (maxDelay DEFAULT_OPTIONS) (o_maxDelay o);
      backoffFactor := default (backoffFactor DEFAULT_OPTIONS) (o_backoffFactor o);
      retryableErrors := default (retryableErrors DEFAULT_OPTIONS) (o_retryableErrors o);
      onRetry := default (onRetry DEFAULT_OPTIONS) (o_onRetry o);
    |}
  end.

(** [RetryConfigs] *)
Definition presetOptions (retries : nat) (initial maximal factor : Q) : RetryOptions := {|
  o_maxRetries := Some retries;
  o_initialDelay := Some initial;
  o_maxDelay := Some maximal;
  o_backoffFactor := Some factor;
  o_retryableErrors := None;
  o_onRetry := None;
|}.

Definition RetryConfigs_network : RetryOptions := presetOptions 5 1000 30000 2.
Definition RetryConfigs_database : RetryOptions := presetOptions 3 500 5000 (3 # 2).


Definition isRetryableError (error : JsValue) (retryableErrors : list string) : bool :=
  (* Always retry on network errors *)
  if match error with
     | JsError _ msg =>
         let message := toLowerCase msg in
         includes message "network" || includes message "timeout"
         || includes message "econnrefused" || includes message "enotfound"
         || includes message "econnreset" || includes message "etimedout"
     | JsOther _ => false
     end
  then true
  (* Check against specific error types *)
  else if (0 <? length retryableErrors)%nat && instanceofError error
  then existsb (fun ErrorType => instanceof error ErrorType) retryableErrors
  (* Default: retry on all errors *)
  else true.

(** The delay before the attempt after [attempt]:
    [Math.min(opts.initialDelay * Math.pow(opts.backoffFactor, attempt), opts.maxDelay)] *)
Definition backoffDelay (opts : RequiredRetryOptions) (attempt : nat) : Q :=
  Qmin (initialDelay opts * backoffFactor opts ^ Z.of_nat attempt) (maxDelay opts).

(** The [for] loop of [withRetry], over the values [attempt] still has to
    take; after the loop comes [throw lastError!]. *)
Fixpoint retryLoop {T} (fn : M E T) (opts : RequiredRetryOptions)
    (attempts : list nat) (lastError : option JsValue) : M E T :=
  match attempts with
  | [] => throw (default (JsOther "undefined") lastError)
  | attempt :: rest =>
      tryCatch fn (fun error =>
        let lastError := error in
        (* Check if error is retryable *)
        if negb (isRetryableError error (retryableErrors opts)) then throw error
        (* Check if we've exhausted retries *)
        else if (attempt =? maxRetries opts)%nat then
          emit (EvLog LvError "Max retries exceeded") >>
          throw lastError
        else
          (* Calculate delay with exponential backoff *)
          let delay := backoffDelay opts attempt in
          emit (EvLog LvWarn "Retrying after error") >>
          (* Call retry callback *)
          onRetry opts lastError (attempt + 1)%nat >>
          (* Wait before retrying *)
          sleep delay >>
          retryLoop fn opts rest (Some lastError))
  end.

Definition withRetry {T} (fn : M E T) (options : option RetryOptions) : M E T :=
  let opts := mergeOptions options in
  retryLoop fn opts (seq 0 (S (maxRetries opts))) None.
End RetryHelper.
Arguments RetryOptions E : clear implicits.
Arguments RequiredRetryOptions E : clear implicits.

(** ** [src/utils/retryHelper.ts]: the circuit breaker *)

Section CircuitBreakerOps.
Context {E : Type}.
Local Open Scope Z_scope.

(** [new CircuitBreaker(threshold, timeout)] *)
Definition newCircuitBreaker (threshold timeout : Z) : CircuitBreaker := {|
  failures := 0;
  lastFailureTime := 0;
  state := Closed;
  threshold := threshold;
  timeout := timeout;
|}.

Definition defaultCircuitBreaker : CircuitBreaker := newCircuitBreaker 5 60000.

Definition setState (cb : CircuitBreaker) (s : BreakerState) : CircuitBreaker := {|
  failures := failures cb;
  lastFailureTime := lastFailureTime cb;
  state := s;
  threshold := threshold cb;
  timeout := timeout cb;
|}.



(** The part of [execute] before [await fn()], at time [now]: the call is
    let through with the breaker as it then is, or refused. *)
Definition admitCall (cb : CircuitBreaker) (now : Z) : CircuitBreaker + JsValue :=
  if decide (state cb = Open) then
    if (timeout cb <? now - lastFailureTime cb)%Z then inl (setState cb HalfOpen)
    else inr (newError "Circuit breaker is open")
  else inl cb.



Definition getState (cb : CircuitBreaker) : BreakerState := state cb.

End CircuitBreakerOps.

(** ** [src/utils/retryHelper.ts]: the token bucket rate limiter

    The limiter of the world is the object the methods act on.  [hostname]
    stands for [new URL(url).hostname]; it is [None] where the constructor
    throws. *)

Section RateLimiterOps.
Context {E : Type}.
Local Open Scope Q_scope.
Variable hostname : string -> option string.

(** [new RateLimiter(maxTokens, refillRate)], constructed at time [now] *)
Definition newRateLimiter (maxTokens refillRate : Q) (now : Z) : RateLimiter := {|
  tokens := maxTokens;
  lastRefill := now;
  maxTokens := maxTokens;
  refillRate := refillRate;
  domainBuckets := ∅;
|}.

Definition setGlobal (rl : RateLimiter) (t : Q) (last : Z) : RateLimiter := {|
  tokens := t;
  lastRefill := last;
  maxTokens := maxTokens rl;
  refillRate := refillRate rl;
  domainBuckets := domainBuckets rl;
|}.

Definition setBucket (rl : RateLimiter) (domain : string) (b : Bucket) : RateLimiter := {|
  tokens := tokens rl;
  lastRefill := lastRefill rl;
  maxTokens := maxTokens rl;
  refillRate := refillRate rl;
  domainBuckets := <[domain := b]> (domainBuckets rl);
|}.

(** [Math.min(this.maxTokens, tokens + tokensToAdd)] after [now - last]
    milliseconds *)
Definition refilled (rl : RateLimiter) (t : Q) (last now : Z) : Q :=
  let timePassed := inject_Z (now - last) / 1000 in
  let tokensToAdd := timePassed * refillRate rl in
  Qmin (maxTokens rl) (t + tokensToAdd).

Definition refill : M E unit :=
  let* now := dateNow in
  let* rl := getLimiter in
  putLimiter (setGlobal rl (refilled rl (tokens rl) (lastRefill rl) now) now).

Definition refillDomain (domain : string) : M E unit :=
  let* rl := getLimiter in
  match domainBuckets rl !! domain with
  | None => ret tt
  | Some bucket =>
      let* now := dateNow in
      putLimiter (setBucket rl domain
        {| b_tokens := refilled rl (b_tokens bucket) (b_lastRefill bucket) now;
           b_lastRefill := now |})
  end.

(** [this.delay(ms)] *)
Definition delay (ms : Z) : M E unit := sleep (inject_Z ms).

(** [(tokensNeeded / this.refillRate) * 1000], rounded up by [Math.ceil] *)
Definition waitTimeFor (rl : RateLimiter) (t : Q) : Z :=
  let tokensNeeded := 1 - t in
  Qceiling ((tokensNeeded / refillRate rl) * 1000).

(** [bucket.tokens < 1] *)
Definition belowOne (t : Q) : bool := negb (Qle_bool 1 t).

(** [while (bucket.tokens < 1) { ... }]: at most [fuel] rounds are
    unfolded; a loop that needs more never ends. *)
Fixpoint waitDomain (fuel : nat) (domain : string) : M E unit :=
  let* rl := getLimiter in
  match domainBuckets rl !! domain with
  | None => throw (JsError ["TypeError"; "Error"]%string "Cannot read properties of undefined")
  | Some bucket =>
      if belowOne (b_tokens bucket) then
        match fuel with
        | O => never
        | S fuel' =>
            delay (waitTimeFor rl (b_tokens bucket)) >>
            refillDomain domain >>
            waitDomain fuel' domain
        end
      else ret tt
  end.

(** [bucket.tokens -= 1] *)
Definition takeDomainToken (domain : string) : M E unit :=
  let* rl := getLimiter in
  match domainBuckets rl !! domain with
  | None => throw (JsError ["TypeError"; "Error"]%string "Cannot read properties of undefined")
  | Some bucket =>
      putLimiter (setBucket rl domain
        {| b_tokens := b_tokens bucket - 1; b_lastRefill := b_lastRefill bucket |})
  end.

(** [while (this.tokens < 1) { ... }] *)
Fixpoint waitGlobal (fuel : nat) : M E unit :=
  let* rl := getLimiter in
  if belowOne (tokens rl) then
    match fuel with
    | O => never
    | S fuel' =>
        delay (waitTimeFor rl (tokens rl)) >>
        refill >>
        waitGlobal fuel'
    end
  else ret tt.

(** [this.tokens -= 1] *)
Definition takeGlobalToken : M E unit :=
  let* rl := getLimiter in
  putLimiter (setGlobal rl (tokens rl - 1) (lastRefill rl)).

(** The first part of [waitForToken]: the hostname of [url], whose bucket
    is created at full capacity when it is new. *)
Definition resolveDomain (url : option string) : M E (option string) :=
  match url with
  | Some u =>
      if String.eqb u "" then ret None
      else match hostname u with
           | Some domain =>
               let* rl := getLimiter in
               match domainBuckets rl !! domain with
               | Some _ => ret (Some domain)
               | None =>
                   let* now := dateNow in
                   putLimiter (setBucket rl domain
                     {| b_tokens := maxTokens rl; b_lastRefill := now |}) >>
                   ret (Some domain)
               end
           | None => ret None  (* Invalid URL, use global rate limiter only *)
           end
  | None => ret None
  end.

(** The second part: [if (domain) { ... }] *)
Definition acquireDomain (fuel : nat) (domain : option string) : M E unit :=
  match domain with
  | Some d =>
      if String.eqb d "" then ret tt
      else
        refillDomain d >>
        waitDomain fuel d >>
        takeDomainToken d
  | None => ret tt
  end.

(** The third part: the global bucket *)
Definition acquireGlobal (fuel : nat) : M E unit :=
  refill >>
  waitGlobal fuel >>
  takeGlobalToken.

Definition waitForToken (fuel : nat) (url : option string) : M E unit :=
  let* domain := resolveDomain url in
  (* Check domain-specific rate limit first *)
  acquireDomain fuel domain >>
  (* Then check global rate limit *)
  acquireGlobal fuel.

Definition getTokenCount : M E Q :=
  refill >>
  let* rl := getLimiter in
  ret (tokens rl).

Definition getDomainTokenCount (domain : string) : M E Q :=
  let* rl := getLimiter in
  match domainBuckets rl !! domain with
  | None => ret (maxTokens rl)
  | Some _ =>
      refillDomain domain >>
      let* rl' := getLimiter in
      match domainBuckets rl' !! domain with
      | Some bucket => ret (b_tokens bucket)
      | None => throw (JsError ["TypeError"; "Error"]%string "Cannot read properties of undefined")
      end
  end.

(** [reset()] *)
Definition resetLimiter : M E unit :=
  let* now := dateNow in
  let* rl := getLimiter in
  putLimiter (newRateLimiter (maxTokens rl) (refillRate rl) now).
End RateLimiterOps.

(** ** [src/utils/firebase.ts]

    The store answers every request; of its errors only the one of
    [update] on a document that does not exist is modelled. *)

Section Firebase.
Context {E : Type}.
Local Open Scope Z_scope.

(** The documents of a collection, ordered by document id. *)
Definition docsOf {A} (m : gmap string A) : list (string * A) :=
  merge_sort (fun x y => Is_true (String.leb (fst x) (fst y))) (map_to_list m).

Definition notFound : JsValue := newError "NOT_FOUND: No document to update".

Definition setDistricts (d : Firestore) (m : gmap string District) : Firestore := {|
  districts := m;
  districtContacts := districtContacts d;
  scrape_progress := scrape_progress d;
  district_logs := district_logs d;
|}.

Definition setDistrictContacts (d : Firestore) (m : gmap string DistrictContacts) : Firestore := {|
  districts := districts d;
  districtContacts := m;
  scrape_progress := scrape_progress d;
  district_logs := district_logs d;
|}.

Definition setScrapeProgress (d : Firestore) (m : gmap string ScrapeProgress) : Firestore := {|
  districts := districts d;
  districtContacts := districtContacts d;
  scrape_progress := m;
  district_logs := district_logs d;
|}.

Definition addDistrictLog (d : Firestore) (l : DistrictLog) : Firestore := {|
  districts := districts d;
  districtContacts := districtContacts d;
  scrape_progress := scrape_progress d;
  district_logs := district_logs d ++ [l];
|}.

Definition saveDistricts (ds : list District) : M E unit :=
  let* d := getDb in
  putDb (setDistricts d (foldl (fun m x => <[d_id x := x]> m) (districts d) ds)) >>
  emit (EvConsole "Saved districts to Firebase").

Definition getDistrict (districtId : string) : M E (option District) :=
  let* d := getDb in
  ret (districts d !! districtId).

Definition isFinal (s : DistrictStatus) : bool :=
  match s with StCompleted | StFailed => true | _ => false end.

(** A string is truthy when it is not empty. *)
Definition truthy (s : option string) : bool :=
  match s with Some t => negb (String.eqb t "") | None => false end.

Definition updateDistrictStatus (districtId : string) (status : DistrictStatus)
    (error : option string) : M E unit :=
  let* now := dateNow in
  let* d := getDb in
  match districts d !! districtId with
  | None => throw notFound
  | Some x =>
      putDb (setDistricts d (<[districtId := {|
        d_id := d_id x;
        d_cdCode := d_cdCode x;
        d_name := d_name x;
        d_county := d_county x;
        d_type := d_type x;
        d_website := d_website x;
        d_status := status;
        d_processedAt := if isFinal status then Some now else d_processedAt x;
        d_error := if truthy error then error else d_error x;
      |}]> (districts d)))
  end.

Definition saveDistrictContacts (contacts : DistrictContacts) : M E unit :=
  let* d := getDb in
  putDb (setDistrictContacts d (<[dc_districtId contacts := contacts]> (districtContacts d))).

(** [.where('status', '==', 'pending').orderBy('name')] *)
Definition getPendingDistricts (limit : option nat) : M E (list District) :=
  let* d := getDb in
  let found := List.filter (fun x => bool_decide (d_status x = StPending))
                 (List.map snd (docsOf (districts d))) in
  let ordered := merge_sort (fun x y => Is_true (String.leb (d_name x) (d_name y))) found in
  ret match limit with
      | Some (S n) => take (S n) ordered
      | _ => ordered
      end.

Definition getAllDistrictContacts : M E (list DistrictContacts) :=
  let* d := getDb in
  ret (List.map snd (docsOf (districtContacts d))).

Definition countStatus (s : DistrictStatus) (ds : list District) : Z :=
  Z.of_nat (length (List.filter (fun x => bool_decide (d_status x = s)) ds)).

Definition getProcessingStats : M E Stats :=
  let* d := getDb in
  let ds := List.map snd (docsOf (districts d)) in
  ret {| total := Z.of_nat (length ds);
         pending := countStatus StPending ds;
         processing := countStatus StProcessing ds;
         completed := countStatus StCompleted ds;
         failed := countStatus StFailed ds |}.
End Firebase.

(** ** [src/utils/progressTracker.ts]

    A tracker is given by its [runId]; its [progressDoc] is the document of
    that id in [scrape_progress]. *)

Section ProgressTrackerOps.
Context {E : Type}.
Local Open Scope Z_scope.

(** [FieldValue.increment] on the four counters *)
Definition bumpStats (s : Stats) (dPending dProcessing dCompleted dFailed : Z) : Stats := {|
  total := total s;
  pending := pending s + dPending;
  processing := processing s + dProcessing;
  completed := completed s + dCompleted;
  failed := failed s + dFailed;
|}.

(** [FieldValue.arrayUnion(entry)] *)
Definition arrayUnion (l : list ErrorEntry) (entry : ErrorEntry) : list ErrorEntry :=
  if decide (entry ∈ l) then l else l ++ [entry].

(** [this.progressDoc.update(...)]: the change [f] is applied to the
    document, which has to exist. *)
Definition updateProgress (runId : string) (f : ScrapeProgress -> ScrapeProgress) : M E unit :=
  let* d := getDb in
  match scrape_progress d !! runId with
  | None => throw notFound
  | Some p => putDb (setScrapeProgress d (<[runId := f p]> (scrape_progress d)))
  end.

Definition initializeRun (runId : string) (totalDistricts : Z) : M E unit :=
  let* now := dateNow in
  let progress := {|
    sp_runId := runId;
    sp_startedAt := now;
    sp_updatedAt := now;
    sp_completedAt := None;
    sp_status := RunRunning;
    stats := {| total := totalDistricts; pending := totalDistricts;
                processing := 0; completed := 0; failed := 0 |};
    errors := [];
    currentDistrict := None;
    sp_fatalError := None;
  |} in
  let* d := getDb in
  putDb (setScrapeProgress d (<[runId := progress]> (scrape_progress d))) >>
  emit (EvConsole "Initialized scraping run").

Definition startDistrict (runId : string) (district : District) : M E unit :=
  let* now := dateNow in
  updateProgress runId (fun p => {|
    sp_runId := sp_runId p;
    sp_startedAt := sp_startedAt p;
    sp_updatedAt := now;
    sp_completedAt := sp_completedAt p;
    sp_status := sp_status p;
    stats := bumpStats (stats p) (-1) 1 0 0;
    errors := errors p;
    currentDistrict := Some {| cd_id := d_id district; cd_name := d_name district;
                               cd_startedAt := now |};
    sp_fatalError := sp_fatalError p;
  |}).

Definition completeDistrict (runId : string) (district : District) (contactsFound : Z)
    : M E unit :=
  let* startedAt := dateNow in
  let* completedAt := dateNow in
  (* Log to district logs collection *)
  let log := {|
    dl_districtId := d_id district;
    dl_districtName := d_name district;
    dl_runId := runId;
    dl_status := LogSuccess;
    dl_startedAt := startedAt;
    dl_completedAt := completedAt;
    dl_duration := completedAt - startedAt;
    dl_contactsFound := contactsFound;
    dl_error := None;
  |} in
  let* d := getDb in
  putDb (addDistrictLog d log) >>
  (* Update progress *)
  let* now := dateNow in
  updateProgress runId (fun p => {|
    sp_runId := sp_runId p;
    sp_startedAt := sp_startedAt p;
    sp_updatedAt := now;
    sp_completedAt := sp_completedAt p;
    sp_status := sp_status p;
    stats := bumpStats (stats p) 0 (-1) 1 0;
    errors := errors p;
    currentDistrict := None;
    sp_fatalError := sp_fatalError p;
  |}).

Definition failDistrict (runId : string) (district : District) (error : string) : M E unit :=
  let* now := dateNow in
  let errorEntry := {|
    ee_districtId := d_id district;
    ee_districtName := d_name district;
    ee_error := error;
    ee_timestamp := now;
  |} in
  (* Log to district logs *)
  let log := {|
    dl_districtId := d_id district;
    dl_districtName := d_name district;
    dl_runId := runId;
    dl_status := LogFailed;
    dl_startedAt := now;
    dl_completedAt := now;
    dl_duration := 0;
    dl_contactsFound := 0;
    dl_error := Some error;
  |} in
  let* d := getDb in
  putDb (addDistrictLog d log) >>
  (* Update progress *)
  updateProgress runId (fun p => {|
    sp_runId := sp_runId p;
    sp_startedAt := sp_startedAt p;
    sp_updatedAt := now;
    sp_completedAt := sp_completedAt p;
    sp_status := sp_status p;
    stats := bumpStats (stats p) 0 (-1) 0 1;
    errors := arrayUnion (errors p) errorEntry;
    currentDistrict := None;
    sp_fatalError := sp_fatalError p;
  |}).

Definition finishRun (status : RunStatus) (fatalError : option string) (now : Z)
    (p : ScrapeProgress) : ScrapeProgress := {|
  sp_runId := sp_runId p;
  sp_startedAt := sp_startedAt p;
  sp_updatedAt := now;
  sp_completedAt := Some now;
  sp_status := status;
  stats := stats p;
  errors := errors p;
  currentDistrict := currentDistrict p;
  sp_fatalError := match fatalError with Some e => Some e | None => sp_fatalError p end;
|}.

Definition completeRun (runId : string) : M E unit :=
  let* now := dateNow in
  updateProgress runId (finishRun RunCompleted None now) >>
  emit (EvConsole "Scraping run completed").

Definition failRun (runId : string) (error : string) : M E unit :=
  let* now := dateNow in
  updateProgress runId (finishRun RunFailed (Some error) now).

Definition getProgress (runId : string) : M E (option ScrapeProgress) :=
  let* d := getDb in
  ret (scrape_progress d !! runId).

(** [.where('status', 'in', ['pending', 'processing'])] *)
Definition isOpenStatus (s : DistrictStatus) : bool :=
  match s with StPending | StProcessing => true | _ => false end.

(** [.where('runId', '==', runId).where('status', '==', 'success')] *)
Definition isSuccessOf (runId : string) (l : DistrictLog) : bool :=
  String.eqb (dl_runId l) runId && bool_decide (dl_status l = LogSuccess).

(** [processedIds.has(id)] *)
Definition has (ids : list string) (id : string) : bool :=
  existsb (String.eqb id) ids.

Definition getUnprocessedDistricts (runId : string) : M E (list string) :=
  let* d := getDb in
  (* Get all districts *)
  let districtsSnapshot :=
    List.filter (fun doc => isOpenStatus (d_status (snd doc))) (docsOf (districts d)) in
  (* Get successfully processed districts from this run *)
  let logsSnapshot := List.filter (isSuccessOf runId) (district_logs d) in
  let processedIds := List.map dl_districtId logsSnapshot in
  ret (List.filter (fun id => negb (has processedIds id))
         (List.map fst districtsSnapshot)).

Definition isDistrictProcessed (runId : string) (districtId : string) : M E bool :=
  let* d := getDb in
  let snapshot :=
    take 1 (List.filter (fun l => isSuccessOf runId l && String.eqb (dl_districtId l) districtId)
              (district_logs d)) in
  ret (negb (bool_decide (snapshot = []))).
End ProgressTrackerOps.

(** ** [src/processors/emailGenerator.ts] *)

Definition departments : list string :=
  ["facilities"; "maintenance"; "operations"; "purchasing"; "procurement";
   "business"; "admin"; "info"; "contact"; "superintendent"; "hr";
   "humanresources"; "finance"; "accounting"; "it"; "technology"]%string.

Definition generateDepartmentEmails (domain : string) : list string :=
  List.map (fun dept => (dept ++ "@" ++ domain)%string) departments.

(** ** [src/orchestrator.ts] *)

(** An entry of the map [CDELoader.loadDistrictContacts] returns. *)
Record CdeContact := {
  cde_firstName : string;
  cde_lastName : string;
  cde_email : option string;
  cde_title : option string;
}.

(** The argument of [CSVExporter.exportSummary]. *)
Record Summary := {
  totalDistricts : Z;
  totalContacts : Z;
  verifiedEmails : Z;
  districtsCovered : Z;
  executionTime : string;
}.

(** What the orchestrator is composed with: the platform functions it calls
    and the stages implemented outside the engine.  A stage acts on the
    collaborators' state [E]; a [Map] it returns is the list of its entries. *)
Record Collaborators (E : Type) := {
  (* [new URL(url).hostname], [None] where the constructor throws *)
  hostname : string -> option string;
  (* [text.replace(pattern, replacement)] with a string pattern *)
  replace : string -> string -> string -> string;
  (* the decimal rendering of a number inside a template string *)
  showNumber : Z -> string;
  (* the run id [ProgressTracker.generateRunId] draws *)
  generateRunId : E -> string * E;
  scraper_initialize : E -> Outcome unit * E;
  scraper_close : E -> Outcome unit * E;
  scraper_scrapeDistrict : District -> E -> Outcome (list Contact) * E;
  pdf_initialize : E -> Outcome unit * E;
  pdf_terminate : E -> Outcome unit * E;
  cde_loadDistricts : E -> Outcome (list District) * E;
  cde_loadDistrictContacts : E -> Outcome (list (string * list CdeContact)) * E;
  verifier_verifyBatch : list string -> E -> Outcome (list (string * EmailStatus)) * E;
  verifier_retryGreylisted : list string -> E -> Outcome (list (string * EmailStatus)) * E;
  csv_exportContacts : list DistrictContacts -> E -> Outcome unit * E;
  csv_exportSummary : Summary -> E -> Outcome unit * E;
  extractDomainFromWebsite : option string -> option string;
  inferPatternFromKnownEmails : list Contact -> option string;
  generateEmails : string -> string -> string -> list string;
}.
Arguments hostname {E} c.
Arguments replace {E} c.
Arguments showNumber {E} c.
Arguments generateRunId {E} c.
Arguments scraper_initialize {E} c.
Arguments scraper_close {E} c.
Arguments scraper_scrapeDistrict {E} c.
Arguments pdf_initialize {E} c.
Arguments pdf_terminate {E} c.
Arguments cde_loadDistricts {E} c.
Arguments cde_loadDistrictContacts {E} c.
Arguments verifier_verifyBatch {E} c.
Arguments verifier_retryGreylisted {E} c.
Arguments csv_exportContacts {E} c.
Arguments csv_exportSummary {E} c.
Arguments extractDomainFromWebsite {E} c.
Arguments inferPatternFromKnownEmails {E} c.
Arguments generateEmails {E} c.

Section Orchestrator.
Context {E : Type}.
Variable C : Collaborators E.
(** How many rounds of the rate limiter's waiting loops are unfolded. *)
Variable fuel : nat.
Local Open Scope Z_scope.

Definition typeError : JsValue :=
  JsError ["TypeError"; "Error"]%string "Cannot read properties of undefined".

(** [this.progressTracker], which [initialize] assigns *)
Definition progressTracker : M E string :=
  let* t := getTracker in
  match t with
  | Some runId => ret runId
  | None => throw typeError
  end.

(** The constructor: [new RateLimiter(30, 0.5)] *)
Definition construct : M E unit :=
  let* now := dateNow in
  putLimiter (newRateLimiter 30 (1 # 2) now) >>
  putTracker None.

Definition initialize : M E unit :=
  emit (EvLog LvInfo "Initializing orchestrator...") >>
  call "scraper.initialize" "" (scraper_initialize C) >>
  call "pdfProcessor.initialize" "" (pdf_initialize C) >>
  let* runId := call "generateRunId" "" (fun e => let '(r, e') := generateRunId C e in (Resolved r, e')) in
  putTracker (Some runId).

Definition cleanup : M E unit :=
  emit (EvLog LvInfo "Cleaning up resources...") >>
  call "scraper.close" "" (scraper_close C) >>
  call "pdfProcessor.terminate" "" (pdf_terminate C).

Definition loadOrGetDistricts : M E (list District) :=
  let* stats := getProcessingStats in
  if total stats =? 0 then
    emit (EvConsole "No districts in Firebase, loading from CDE data...") >>
    let* districts := call "loadDistricts" "" (cde_loadDistricts C) in
    saveDistricts districts >>
    ret districts
  else getPendingDistricts None.

(** The contact the fallback builds from a department address *)
Definition departmentContact (address : string) : Contact := {|
  firstName := "Department";
  lastName := "Contact";
  title := "General Contact";
  email := Some address;
  emailStatus := None;
  confidence := Some 60;
|}.

(** [if (district.website) { try { ... withRetry ... } catch ... }] *)
Definition acquireContacts (district : District) (domain : option string)
    : M E (list Contact) :=
  if truthy (d_website district) then
    tryCatch
      (* Scrape with retry logic *)
      (withRetry
         (call "scrapeDistrict" (d_id district) (scraper_scrapeDistrict C district))
         (Some RetryConfigs_network))
      (fun error =>
         if bool_decide (messageOf error = Some "CAPTCHA_DETECTED"%string) then
           emit (EvConsole "CAPTCHA detected, using department emails") >>
           match domain with
           | Some dom =>
               if String.eqb dom "" then ret []
               else ret (List.map departmentContact (generateDepartmentEmails dom))
           | None => ret []
           end
         else throw error)
  else ret [].

Definition fromCde (c : CdeContact) : Contact := {|
  firstName := cde_firstName c;
  lastName := cde_lastName c;
  title := if truthy (cde_title c) then default ""%string (cde_title c)
           else "Administrator"%string;
  email := cde_email c;
  emailStatus := Some Unverified;
  confidence := Some 100;
|}.

(** [map.get(key)] on the entries of a [Map] *)
Fixpoint mapGet {V} (entries : list (string * V)) (key : string) : option V :=
  match entries with
  | [] => None
  | (k, v) :: rest => if String.eqb k key then Some v else mapGet rest key
  end.

(** [text[0]] *)
Definition firstChar (text : string) : string :=
  match text with
  | String c _ => String c EmptyString
  | EmptyString => EmptyString
  end.

Definition fillPattern (pattern : string) (contact : Contact) (domain : string) : string :=
  replace C
    (replace C
       (replace C
          (replace C
             (replace C pattern "{first}" (toLowerCase (firstName contact)))
             "{last}" (toLowerCase (lastName contact)))
          "{f}" (toLowerCase (firstChar (firstName contact))))
       "{l}" (toLowerCase (firstChar (lastName contact))))
    "{domain}" domain.

Definition setEmail (c : Contact) (address : option string) (status : option EmailStatus)
    : Contact := {|
  firstName := firstName c;
  lastName := lastName c;
  title := title c;
  email := address;
  emailStatus := status;
  confidence := confidence c;
|}.

(** The body of [for (const contact of contacts)] *)
Definition generateFor (pattern : option string) (domain : string) (contact : Contact)
    : Contact :=
  if negb (truthy (email contact))
     && negb (String.eqb (firstName contact) "")
     && negb (String.eqb (lastName contact) "")
  then
    let generatedEmails :=
      match pattern with
      | Some p =>
          if String.eqb p "" then
            generateEmails C (firstName contact) (lastName contact) domain
          else [fillPattern p contact domain]
      | None => generateEmails C (firstName contact) (lastName contact) domain
      end in
    match generatedEmails with
    | first :: _ => setEmail contact (Some first) (Some Generated)
    | [] => contact
    end
  else contact.

Definition generateMissing (domain : option string) (contacts : list Contact)
    : list Contact :=
  match domain with
  | Some dom =>
      if negb (String.eqb dom "")
         && (length (List.filter (fun c => truthy (email c)) contacts) <? 3)%nat
      then
        let pattern := inferPatternFromKnownEmails C contacts in
        List.map (generateFor pattern dom) contacts
      else contacts
  | None => contacts
  end.

(** [contact.emailStatus = results.get(contact.email)] where the map has
    the address *)
Definition applyResults (results : list (string * EmailStatus)) (contact : Contact)
    : Contact :=
  match email contact with
  | Some address =>
      if negb (String.eqb address "") then
        match mapGet results address with
        | Some status => setEmail contact (email contact) (Some status)
        | None => contact
        end
      else contact
  | None => contact
  end.

Definition verifyContacts (contacts : list Contact) : M E (list Contact) :=
  let emailsToVerify :=
    List.map (fun c => default ""%string (email c))
      (List.filter (fun c => truthy (email c) && bool_decide (emailStatus c = None))
         contacts) in
  if (0 <? length emailsToVerify)%nat then
    let* verificationResults :=
      call "verifyBatch" "" (verifier_verifyBatch C emailsToVerify) in
    let contacts := List.map (applyResults verificationResults) contacts in
    let greylistedEmails :=
      List.map fst
        (List.filter (fun entry => bool_decide (snd entry = GreylistRetry))
           verificationResults) in
    if (0 <? length greylistedEmails)%nat then
      let* retryResults :=
        call "retryGreylisted" "" (verifier_retryGreylisted C greylistedEmails) in
      ret (List.map (applyResults retryResults) contacts)
    else ret contacts
  else ret contacts.

Definition countStatusOf (s : EmailStatus) (contacts : list Contact) : Z :=
  Z.of_nat (length (List.filter (fun c => bool_decide (emailStatus c = Some s)) contacts)).

(** The [try] block of [processDistrict] *)
Definition pipeline (district : District) (districtStartTime : Z) : M E unit :=
  (* Check if already processed in this run *)
  let* runId := progressTracker in
  let* processed := isDistrictProcessed runId (d_id district) in
  if processed : bool then
    emit (EvLog LvInfo "Skipping already processed district")
  else
    startDistrict runId district >>
    updateDistrictStatus (d_id district) StProcessing None >>
    (* Apply rate limiting *)
    waitForToken (hostname C) fuel (d_website district) >>
    let domain := extractDomainFromWebsite C (d_website district) in
    let* contacts := acquireContacts district domain in
    let* cdeContacts := call "loadDistrictContacts" "" (cde_loadDistrictContacts C) in
    let districtCDEContacts := default [] (mapGet cdeContacts (d_id district)) in
    let contacts := contacts ++ List.map fromCde districtCDEContacts in
    let contacts := generateMissing domain contacts in
    let* contacts := verifyContacts contacts in
    let* scrapedAt := dateNow in
    let districtContacts := {|
      dc_districtId := d_id district;
      dc_districtName := d_name district;
      dc_county := d_county district;
      dc_website := d_website district;
      dc_contacts := contacts;
      dc_scrapedAt := scrapedAt;
    |} in
    withRetry (saveDistrictContacts districtContacts) (Some RetryConfigs_database) >>
    updateDistrictStatus (d_id district) StCompleted None >>
    let* now := dateNow in
    let duration := now - districtStartTime in
    let* runId := progressTracker in
    completeDistrict runId district (Z.of_nat (length contacts)) >>
    emit (EvDistrict "district_complete" (d_id district)).

(** The [catch] block of [processDistrict] *)
Definition recordFailure (district : District) (error : JsValue) : M E unit :=
  let errorMessage := errorMessageOrString error in
  emit (EvDistrict "district_error" (d_id district)) >>
  let* runId := progressTracker in
  failDistrict runId district errorMessage >>
  updateDistrictStatus (d_id district) StFailed (Some errorMessage).
  (* Don't throw - continue with next district *)

Definition processDistrict (district : District) : M E unit :=
  let* districtStartTime := dateNow in
  emit (EvDistrict "district_start" (d_id district)) >>
  tryCatch (pipeline district districtStartTime) (recordFailure district).

(** [processBatch]: every district of the batch is handed to the limiter
    with its own [try]/[catch]; the handlers run here one after the other,
    in the order of the batch. *)
Fixpoint processBatch (districts : list District) : M E unit :=
  match districts with
  | [] => ret tt
  | district :: rest =>
      tryCatch (processDistrict district)
        (fun error => emit (EvConsole "Error processing district")) >>
      processBatch rest
  end.

Definition batchSize : nat := 50.

(** [array.slice(i, i + batchSize)] *)
Definition slice {A} (l : list A) (i j : nat) : list A := take (j - i) (drop i l).

(** The batch loop of [run], from index [i]; [n] bounds the number of
    rounds, and the length of the list is enough. *)
Fixpoint batchLoop (n : nat) (districtsToProcess : list District) (i : nat) : M E unit :=
  if (i <? length districtsToProcess)%nat then
    match n with
    | O => never
    | S n' =>
        let batch := slice districtsToProcess i (i + batchSize) in
        processBatch batch >>
        let* runId := progressTracker in
        let* progress := getProgress runId in
        match progress with
        | Some _ => emit (EvLog LvInfo "Progress")
        | None => ret tt
        end >>
        (if (i + batchSize <? length districtsToProcess)%nat then
           emit (EvLog LvDebug "Pausing between batches...") >>
           sleep 5000
         else ret tt) >>
        batchLoop n' districtsToProcess (i + batchSize)
    end
  else ret tt.

Definition formatExecutionTime (ms : Z) : string :=
  let hours := ms / 3600000 in
  let minutes := Z.rem ms 3600000 / 60000 in
  (showNumber C hours ++ "h " ++ showNumber C minutes ++ "m")%string.

Definition exportResults (startTime : Z) : M E unit :=
  emit (EvConsole "Exporting results...") >>
  let* allContacts := getAllDistrictContacts in
  let* stats := getProcessingStats in
  call "exportContacts" "" (csv_exportContacts C allContacts) >>
  let totalContacts :=
    fold_left (fun sum dc => sum + Z.of_nat (length (dc_contacts dc))) allContacts 0 in
  let verifiedEmails :=
    fold_left (fun sum dc => sum + countStatusOf Verified (dc_contacts dc)) allContacts 0 in
  let* now := dateNow in
  let executionTime := formatExecutionTime (now - startTime) in
  call "exportSummary" "" (csv_exportSummary C {|
    totalDistricts := total stats;
    totalContacts := totalContacts;
    verifiedEmails := verifiedEmails;
    districtsCovered := completed stats;
    executionTime := executionTime;
  |}) >>
  emit (EvConsole "=== Scraping Complete ===").

(** [districts.filter(d => unprocessedIds.includes(d.id))] *)
Definition selectUnprocessed (districts : list District) (unprocessedIds : list string)
    : list District :=
  List.filter (fun d => has unprocessedIds (d_id d)) districts.

(** The [try] block of [run] *)
Definition runBody (startTime : Z) : M E unit :=
  initialize >>
  let* districts := loadOrGetDistricts in
  emit (EvLog LvInfo "Processing districts...") >>
  emit (EvLog LvInfo "Scraper event: run_started") >>
  (* Initialize progress tracking *)
  let* runId := progressTracker in
  initializeRun runId (Z.of_nat (length districts)) >>
  (* Check for resume capability *)
  let* unprocessedIds := getUnprocessedDistricts runId in
  let districtsToProcess := selectUnprocessed districts unprocessedIds in
  (if (length districtsToProcess <? length districts)%nat
   then emit (EvLog LvInfo "Resuming from previous run.")
   else ret tt) >>
  batchLoop (length districtsToProcess) districtsToProcess 0 >>
  let* runId := progressTracker in
  completeRun runId >>
  exportResults startTime.

Definition run : M E unit :=
  let* startTime := dateNow in
  tryFinally
    (tryCatch (runBody startTime)
       (fun error =>
          emit (EvLog LvError "Fatal error in orchestrator") >>
          let* runId := progressTracker in
          failRun runId (errorMessageOrString error) >>
          throw error))
    cleanup.
End Orchestrator.

(** ** Observations on worlds and traces, for the statements below *)

(** The number of times the collaborator [operation] was entered. *)
Definition invocationsOf (operation : string) (evs : list Event) : nat :=
  length (List.filter
            (fun ev => match ev with
                       | EvCall name _ => String.eqb name operation
                       | _ => false
                       end) evs).

(** The waits of a trace, in order. *)
Fixpoint sleepsOf (evs : list Event) : list Q :=
  match evs with
  | [] => []
  | EvSleep ms :: rest => ms :: sleepsOf rest
  | _ :: rest => sleepsOf rest
  end.

(** The collaborators' state after [n] calls of [op] in a row. *)
Fixpoint afterCalls {E T} (op : E -> Outcome T * E) (n : nat) (e : E) : E :=
  match n with
  | O => e
  | S n' => snd (op (afterCalls op n' e))
  end.

(** The events of the attempts [a], ..., [a + j - 1] of [withRetry] when
    each fails and is retried: the call, the warning, the wait. *)
Definition retryEvents {E} (opts : RequiredRetryOptions E) (operation argument : string)
    (a j : nat) : list Event :=
  concat (List.map (fun i => [EvCall operation argument;
                              EvLog LvWarn "Retrying after error";
                              EvSleep (backoffDelay opts (a + i))]) (seq 0 j)).

(** The time the timers of these attempts take. *)
Definition retryTime {E} (opts : RequiredRetryOptions E) (a j : nat) : Z :=
  fold_right Z.add 0%Z (List.map (fun i => timerDelay (backoffDelay opts (a + i))) (seq 0 j)).



(** ** Sample inputs *)

Definition emptyFirestore : Firestore :=
  {| districts := ∅; districtContacts := ∅; scrape_progress := ∅; district_logs := [] |}.

(** A world at time [now] with an empty store and the limiter the
    orchestrator constructs. *)
Definition sampleWorld {E} (e : E) (now : Z) : World E := {|
  env := e;
  clock := now;
  trace := [];
  db := emptyFirestore;
  limiter := newRateLimiter 30 (1 # 2) now;
  tracker := None;
|}.






(** The operations of a tracker that write, as data: a program's use of a
    tracker is a list of them. *)
Inductive TrackerOp : Type :=
| OpInitializeRun (totalDistricts : Z)
| OpStartDistrict (district : District)
| OpCompleteDistrict (district : District) (contactsFound : Z)
| OpFailDistrict (district : District) (error : string)
| OpCompleteRun
| OpFailRun (error : string).

Definition runOp {E} (runId : string) (op : TrackerOp) : M E unit :=
  match op with
  | OpInitializeRun totalDistricts => initializeRun runId totalDistricts
  | OpStartDistrict district => startDistrict runId district
  | OpCompleteDistrict district contactsFound => completeDistrict runId district contactsFound
  | OpFailDistrict district error => failDistrict runId district error
  | OpCompleteRun => completeRun runId
  | OpFailRun error => failRun runId error
  end.

(** The world after the operations [ops], however each of them ends. *)
Fixpoint runOps {E} (runId : string) (ops : list TrackerOp) (w : World E) : World E :=
  match ops with
  | [] => w
  | op :: rest => runOps runId rest (snd (runOp runId op w))
  end.

Definition isStart (op : TrackerOp) : bool :=
  match op with OpStartDistrict _ => true | _ => false end.

Definition isFinish (op : TrackerOp) : bool :=
  match op with OpCompleteDistrict _ _ | OpFailDistrict _ _ => true | _ => false end.

Definition isInitialize (op : TrackerOp) : bool :=
  match op with OpInitializeRun _ => true | _ => false end.

(** [stats.pending + stats.processing + stats.completed + stats.failed == stats.total] *)
Definition statsBalanced (s : Stats) : Prop :=
  (pending s + processing s + completed s + failed s = total s)%Z.

(** The progress document of [runId], as stored in [w]. *)
Definition progressOf {E} (runId : string) (w : World E) : option ScrapeProgress :=
  scrape_progress (db w) !! runId.

(** What an operation makes of the counters of an existing document. *)
Definition opStats (op : TrackerOp) (s : Stats) : Stats :=
  match op with
  | OpInitializeRun n =>
      {| total := n; pending := n; processing := 0; completed := 0; failed := 0 |}
  | OpStartDistrict _ => bumpStats s (-1) 1 0 0
  | OpCompleteDistrict _ _ => bumpStats s 0 (-1) 1 0
  | OpFailDistrict _ _ => bumpStats s 0 (-1) 0 1
  | OpCompleteRun | OpFailRun _ => s
  end.

Definition countOps (f : TrackerOp -> bool) (ops : list TrackerOp) : Z :=
  Z.of_nat (length (List.filter f ops)).

(** A district document with the given id, name, website and status. *)
Definition sampleDistrict (id name : string) (website : option string)
    (status : DistrictStatus) : District := {|
  d_id := id;
  d_cdCode := id;
  d_name := name;
  d_county := "Alameda";
  d_type := "District";
  d_website := website;
  d_status := status;
  d_processedAt := None;
  d_error := None;
|}.

(** The resume set in the words of the design: the items whose global
    status is pending or processing, minus those with a success record of
    the current run. *)
Definition unprocessedSpec (runId : string) (d : Firestore) (id : string) : Prop :=
  (exists x, districts d !! id = Some x
             /\ (d_status x = StPending \/ d_status x = StProcessing))
  /\ ~ (exists l, In l (district_logs d)
                  /\ dl_runId l = runId /\ dl_status l = LogSuccess
                  /\ dl_districtId l = id).

Definition successLog (runId id name : string) (at_ : Z) : DistrictLog := {|
  dl_districtId := id; dl_districtName := name; dl_runId := runId; dl_status := LogSuccess;
  dl_startedAt := at_; dl_completedAt := at_; dl_duration := 0; dl_contactsFound := 2;
  dl_error := None |}.

(** Five districts, of which a prior run ["run_old"] completed the first three. *)
Definition resumeStore : Firestore := {|
  districts := list_to_map [
    ("1", sampleDistrict "1" "Alpha" (Some "https://alpha.example.org") StCompleted);
    ("2", sampleDistrict "2" "Beta" (Some "https://beta.example.org") StCompleted);
    ("3", sampleDistrict "3" "Gamma" (Some "https://gamma.example.org") StCompleted);
    ("4", sampleDistrict "4" "Delta" (Some "https://delta.example.org") StPending);
    ("5", sampleDistrict "5" "Epsilon" (Some "https://epsilon.example.org") StPending)]%string;
  districtContacts := ∅;
  scrape_progress := ∅;
  district_logs := [successLog "run_old" "1" "Alpha" 10; successLog "run_old" "2" "Beta" 20;
                    successLog "run_old" "3" "Gamma" 30];
|}.

Definition resumeWorld {E} (e : E) : World E := setDb (sampleWorld e 1000) resumeStore.

(** The uses of a rate limiter, as data; [OpElapse] lets the clock move by
    any amount between two uses. *)
Inductive LimiterOp : Type :=
| OpGetTokenCount
| OpGetDomainTokenCount (domain : string)
| OpWaitForToken (fuel : nat) (url : option string)
| OpReset
| OpElapse (ms : Z).

Definition runLimiterOp {E} (hostname : string -> option string) (op : LimiterOp)
    (w : World E) : World E :=
  match op with
  | OpGetTokenCount => snd (getTokenCount w)
  | OpGetDomainTokenCount domain => snd (getDomainTokenCount domain w)
  | OpWaitForToken fuel url => snd (waitForToken hostname fuel url w)
  | OpReset => snd (resetLimiter w)
  | OpElapse ms => setClock w (clock w + ms)
  end.

Definition runLimiterOps {E} (hostname : string -> option string) (ops : list LimiterOp)
    (w : World E) : World E :=
  fold_left (fun w op => runLimiterOp hostname op w) ops w.

(** No bucket holds more than the capacity. *)
Definition withinCapacity (rl : RateLimiter) : Prop :=
  (tokens rl <= maxTokens rl)%Q
  /\ forall domain bucket,
       domainBuckets rl !! domain = Some bucket -> (b_tokens bucket <= maxTokens rl)%Q.

(** The domain [waitForToken] charges for [url]: the hostname, unless the
    URL is missing, empty or invalid, or the hostname is empty. *)
Definition chargedDomain (hostname : string -> option string) (url : option string)
    : option string :=
  match url with
  | Some u =>
      if String.eqb u "" then None
      else match hostname u with
           | Some d => if String.eqb d "" then None else Some d
           | None => None
           end
  | None => None
  end.

(** [m] keeps the property [I] of the limiter. *)
Definition keeps {E A} (I : RateLimiter -> Prop) (m : M E A) : Prop :=
  forall w, I (limiter w) -> I (limiter (snd (m w))).

(** What a wait of the limiter leaves alone: the collaborators, the store,
    the tracker and the parameters of the limiter. *)
Definition sameButBuckets {E} (w w' : World E) : Prop :=
  env w' = env w /\ db w' = db w /\ tracker w' = tracker w
  /\ maxTokens (limiter w') = maxTokens (limiter w)
  /\ refillRate (limiter w') = refillRate (limiter w).

(** A step of the global phase leaves the domain buckets alone. *)
Definition globalStep {E} (w w' : World E) : Prop :=
  sameButBuckets w w' /\ domainBuckets (limiter w') = domainBuckets (limiter w).

(** A step of the domain phase for [d] leaves the global bucket and the
    other domain buckets alone. *)
Definition domainStep {E} (d : string) (w w' : World E) : Prop :=
  sameButBuckets w w'
  /\ tokens (limiter w') = tokens (limiter w)
  /\ lastRefill (limiter w') = lastRefill (limiter w)
  /\ forall d', d' <> d ->
        domainBuckets (limiter w') !! d' = domainBuckets (limiter w) !! d'.

(** A stand-in for [new URL(url).hostname]: what follows ["https://"]. *)
Definition sampleHostname (url : string) : option string :=
  if String.prefix "https://" url
  then Some (String.substring 8 (String.length url - 8) url)
  else None.

(** ** Observations on the orchestrator *)

(** The events that are neither a call of the acquisition stage nor the
    start of a district. *)
Definition ordinary (ev : Event) : bool :=
  match ev with
  | EvCall operation _ => negb (String.eqb operation "scrapeDistrict")
  | EvDistrict event _ => negb (String.eqb event "district_start")
  | _ => true
  end.

(** [m] only adds events that satisfy [P] to the trace. *)
Definition emitsOnly {E A} (P : Event -> Prop) (m : M E A) : Prop :=
  forall w, exists evs, trace (snd (m w)) = trace w ++ evs /\ Forall P evs.

(** No document of [districts] or [scrape_progress] is lost from [d] to [d']. *)
Definition docsKept (d d' : Firestore) : Prop :=
  (forall id, is_Some (districts d !! id) -> is_Some (districts d' !! id))
  /\ (forall runId, is_Some (scrape_progress d !! runId) ->
                    is_Some (scrape_progress d' !! runId)).

(** [m] leaves the tracker of the orchestrator in place and loses no
    document. *)
Definition persists {E A} (m : M E A) : Prop :=
  forall w, tracker (snd (m w)) = tracker w /\ docsKept (db w) (db (snd (m w))).

(** The districts whose processing a trace starts, in order. *)
Fixpoint districtStarts (evs : list Event) : list string :=
  match evs with
  | [] => []
  | EvDistrict event id :: rest =>
      if String.eqb event "district_start" then id :: districtStarts rest
      else districtStarts rest
  | _ :: rest => districtStarts rest
  end.

(** The districts for which a trace enters the acquisition stage, in order. *)
Fixpoint scrapedDistricts (evs : list Event) : list string :=
  match evs with
  | [] => []
  | EvCall operation id :: rest =>
      if String.eqb operation "scrapeDistrict" then id :: scrapedDistricts rest
      else scrapedDistricts rest
  | _ :: rest => scrapedDistricts rest
  end.

(** The contacts the fallback substitutes for a site of the given domain. *)
Definition fallbackContacts (domain : option string) : list Contact :=
  match domain with
  | Some dom =>
      if String.eqb dom "" then []
      else List.map departmentContact (generateDepartmentEmails dom)
  | None => []
  end.

(** A limiter whose buckets can hold a token and do refill. *)
Definition sane (rl : RateLimiter) : Prop :=
  (1 <= maxTokens rl)%Q /\ (0 < refillRate rl)%Q.

(** From a world with a sane limiter, [m] settles, and leaves the limiter
    sane. *)
Definition settles {E A} (m : M E A) : Prop :=
  forall w, sane (limiter w) -> fst (m w) <> Pending /\ sane (limiter (snd (m w))).

(** The stages a district goes through always settle. *)
Definition stagesSettle {E} (C : Collaborators E) : Prop :=
  (forall d e, fst (scraper_scrapeDistrict C d e) <> Pending)
  /\ (forall e, fst (cde_loadDistrictContacts C e) <> Pending)
  /\ (forall emails e, fst (verifier_verifyBatch C emails e) <> Pending)
  /\ (forall emails e, fst (verifier_retryGreylisted C emails e) <> Pending).

(** ** Sample collaborators

    The acquisition stage is blocked on the district ["blocked"], fails on
    the district ["broken"] and finds one contact elsewhere; the other
    stages succeed.  The collaborators' state counts their calls. *)
Definition sampleContact : Contact := {|
  firstName := "Ada";
  lastName := "Byron";
  title := "Superintendent";
  email := Some "ada.byron@alpha.example.org"%string;
  emailStatus := None;
  confidence := None;
|}.

Definition sampleScrape (d : District) (calls : nat) : Outcome (list Contact) * nat :=
  (if String.eqb (d_id d) "blocked" then Rejected (newError "CAPTCHA_DETECTED")
   else if String.eqb (d_id d) "broken" then Rejected (newError "Navigation failed")
   else Resolved [sampleContact],
   S calls).

Definition sampleCollaborators : Collaborators nat := {|
  hostname := sampleHostname;
  replace := fun text _ _ => text;
  showNumber := fun _ => "0"%string;
  generateRunId := fun calls => ("run_new"%string, S calls);
  scraper_initialize := fun calls => (Resolved tt, S calls);
  scraper_close := fun calls => (Resolved tt, S calls);
  scraper_scrapeDistrict := sampleScrape;
  pdf_initialize := fun calls => (Resolved tt, S calls);
  pdf_terminate := fun calls => (Resolved tt, S calls);
  cde_loadDistricts := fun calls => (Resolved [], S calls);
  cde_loadDistrictContacts := fun calls => (Resolved [], S calls);
  verifier_verifyBatch :=
    fun emails calls => (Resolved (List.map (fun address => (address, Verified)) emails), S calls);
  verifier_retryGreylisted := fun _ calls => (Resolved [], S calls);
  csv_exportContacts := fun _ calls => (Resolved tt, S calls);
  csv_exportSummary := fun _ calls => (Resolved tt, S calls);
  extractDomainFromWebsite :=
    fun website => match website with Some url => sampleHostname url | None => None end;
  inferPatternFromKnownEmails := fun _ => None;
  generateEmails := fun _ _ _ => [];
|}.

(** A store with three pending districts and the progress document of the
    run ["run_new"], and a world whose orchestrator tracks that run. *)
Definition batchStore : Firestore := {|
  districts := list_to_map [
    ("broken", sampleDistrict "broken" "Beta" (Some "https://beta.example.org") StPending);
    ("blocked", sampleDistrict "blocked" "Gamma" (Some "https://gamma.example.org") StPending);
    ("fine", sampleDistrict "fine" "Alpha" (Some "https://alpha.example.org") StPending)]%string;
  districtContacts := ∅;
  scrape_progress := {[ "run_new"%string := {|
    sp_runId := "run_new"; sp_startedAt := 0; sp_updatedAt := 0; sp_completedAt := None;
    sp_status := RunRunning;
    stats := {| total := 3; pending := 3; processing := 0; completed := 0; failed := 0 |};
    errors := []; currentDistrict := None; sp_fatalError := None |} ]};
  district_logs := [];
|}.

Definition batchWorld : World nat :=
  setTracker (setDb (sampleWorld 0%nat 1000) batchStore) (Some "run_new"%string).

Definition brokenDistrict : District :=
  sampleDistrict "broken" "Beta" (Some "https://beta.example.org"%string) StPending.
Definition blockedDistrict : District :=
  sampleDistrict "blocked" "Gamma" (Some "https://gamma.example.org"%string) StPending.
Definition fineDistrict : District :=
  sampleDistrict "fine" "Alpha" (Some "https://alpha.example.org"%string) StPending.


(** ** Observations on a resumed run *)

(** [m], started in [w], only adds events that satisfy [P] to the trace. *)
Definition emitsAt {E A} (P : Event -> Prop) (m : M E A) (w : World E) : Prop :=
  exists evs, trace (snd (m w)) = trace w ++ evs /\ Forall P evs.

(** The district [id] is open in the store [d]: the document [id] is
    pending or processing, and a pending document carries [id]. *)
Definition openIn (d : Firestore) (id : string) : Prop :=
  (exists x, districts d !! id = Some x
             /\ (d_status x = StPending \/ d_status x = StProcessing))
  /\ (exists k x, districts d !! k = Some x /\ d_id x = id /\ d_status x = StPending).

(** The events a run resumed from the store [d] may add: the acquisition
    stage is entered, and a district started, only for open districts. *)
Definition resumePolicy (d : Firestore) (ev : Event) : Prop :=
  ordinary ev = true
  \/ exists id, openIn d id
                /\ (ev = EvCall "scrapeDistrict" id \/ ev = EvDistrict "district_start" id).
(** * Theorems *)

(** ** Retry *)

Section RetryFacts.
Context {E T : Type}.
Variables (operation argument : string) (op : E -> Outcome T * E).
Variable opts : RequiredRetryOptions E.
Hypothesis default_callback : onRetry opts = onRetry DEFAULT_OPTIONS.

Lemma foldr_add_init (l : list Z) (d : Z) :
  fold_right Z.add d l = (fold_right Z.add 0 l + d)%Z.
Proof. induction l as [|x l IH]; cbn; [lia|]. rewrite IH. lia. Qed.

Lemma retryLoop_failures (errs : nat -> JsValue) :
  forall j a n last w,
    (forall i, (i < j)%nat ->
       fst (op (afterCalls op i (env w))) = Rejected (errs i) /\
       isRetryableError (errs i) (retryableErrors opts) = true) ->
    (a + j <= maxRetries opts)%nat ->
    exists w',
      retryLoop (call operation argument op) opts (seq a (j + n)) last w
      = retryLoop (call operation argument op) opts (seq (a + j) n)
          (match j with O => last | S j' => Some (errs j') end) w'
      /\ env w' = afterCalls op j (env w)
      /\ trace w' = trace w ++ retryEvents opts operation argument a j
      /\ clock w' = (clock w + retryTime opts a j)%Z
      /\ db w' = db w /\ limiter w' = limiter w /\ tracker w' = tracker w.
Proof.
  induction j as [|j IH]; intros a n last w Hfail Hle.
  - exists w. rewrite Nat.add_0_r. cbn. rewrite app_nil_r, Z.add_0_r. done.
  - destruct (IH a (S n) last w) as (w1 & Heq & Henv & Htr & Hck & Hdb & Hlim & Htk).
    { intros i Hi. apply Hfail. lia. }
    { lia. }
    replace (S j + n)%nat with (j + S n)%nat by lia.
    rewrite Heq. clear Heq.
    destruct (Hfail j ltac:(lia)) as [Hop Hretry].
    cbn [seq retryLoop].
    unfold tryCatch at 1. unfold call at 1.
    rewrite Henv. destruct (op (afterCalls op j (env w))) as [r e'] eqn:Hr.
    cbn in Hop. subst r. rewrite Hretry. cbn [negb].
    destruct (Nat.eqb_spec (a + j) (maxRetries opts)) as [Heq|Hne]; [lia|].
    rewrite default_callback.
    eexists. split.
    { replace (a + S j)%nat with (S (a + j)) by lia. reflexivity. }
    unfold setClock, record, setEnv. cbn [env trace clock db limiter tracker afterCalls].
    rewrite Hr. cbn [snd].
    repeat split; try assumption.
    + rewrite Htr. unfold retryEvents. rewrite seq_S, map_app, concat_app.
      cbn [List.map concat]. rewrite <- !app_assoc, Nat.add_0_l. reflexivity.
    + rewrite Hck. unfold retryTime. rewrite seq_S, map_app, fold_right_app.
      cbn [List.map fold_right]. rewrite Nat.add_0_l, Z.add_0_r.
      rewrite (foldr_add_init _ (timerDelay _)). lia.
Qed.

Lemma invocationsOf_app name (l1 l2 : list Event) :
  invocationsOf name (l1 ++ l2) = (invocationsOf name l1 + invocationsOf name l2)%nat.
Proof. unfold invocationsOf. by rewrite List.filter_app, List.length_app. Qed.

Lemma sleepsOf_app (l1 l2 : list Event) : sleepsOf (l1 ++ l2) = sleepsOf l1 ++ sleepsOf l2.
Proof.
  induction l1 as [|[] l1 IH]; cbn; try done. by rewrite IH.
Qed.

Lemma invocationsOf_retryEvents a j :
  invocationsOf operation (retryEvents opts operation argument a j) = j.
Proof.
  unfold retryEvents. induction j as [|j IH]; [done|].
  rewrite seq_S, map_app, concat_app, invocationsOf_app, IH.
  cbn. unfold invocationsOf. cbn. rewrite String.eqb_refl. cbn. lia.
Qed.

Lemma sleepsOf_retryEvents a j :
  sleepsOf (retryEvents opts operation argument a j)
  = List.map (fun i => backoffDelay opts (a + i)) (seq 0 j).
Proof.
  unfold retryEvents. induction j as [|j IH]; [done|].
  rewrite seq_S, !map_app, concat_app, sleepsOf_app, IH. reflexivity.
Qed.
End RetryFacts.

Section RetryTheorems.
Context {E T : Type}.


Lemma withRetry_exhausts (operation argument : string) (op : E -> Outcome T * E)
    (options : RetryOptions E) (m k : nat) (errs : nat -> JsValue) (w : World E) :
  let opts := mergeOptions (Some options) in
  o_maxRetries options = Some m ->
  o_onRetry options = None ->
  (forall i, (i < k)%nat ->
     fst (op (afterCalls op i (env w))) = Rejected (errs i) /\
     isRetryableError (errs i) (retryableErrors opts) = true) ->
  (m < k)%nat ->
  exists w',
    withRetry (call operation argument op) (Some options) w = (Rejected (errs m), w')
    /\ env w' = afterCalls op (S m) (env w)
    /\ trace w' = trace w ++ retryEvents opts operation argument 0 m
                          ++ [EvCall operation argument;
                              EvLog LvError "Max retries exceeded"]
    /\ clock w' = (clock w + retryTime opts 0 m)%Z
    /\ db w' = db w /\ limiter w' = limiter w /\ tracker w' = tracker w.
Proof.
  intros opts Hm Hcb Hfail Hlt.
  assert (Hmax : maxRetries opts = m) by (subst opts; cbn; by rewrite Hm).
  assert (Hdef : onRetry opts = onRetry DEFAULT_OPTIONS) by (subst opts; cbn; by rewrite Hcb).
  unfold withRetry. fold opts. rewrite Hmax.
  replace (seq 0 (S m)) with (seq 0 (m + 1)) by (f_equal; lia).
  destruct (retryLoop_failures operation argument op opts Hdef errs m 0 1 None w)
    as (w1 & Heq & Henv & Htr & Hck & Hdb & Hlim & Htk).
  { intros i Hi. apply Hfail. lia. }
  { lia. }
  rewrite Heq. cbn [seq retryLoop]. unfold tryCatch at 1. unfold call at 1.
  rewrite Henv. destruct (Hfail m Hlt) as [Hop Hretry].
  destruct (op (afterCalls op m (env w))) as [r e'] eqn:Hr.
  cbn in Hop. subst r. rewrite Hretry. cbn [negb Nat.add].
  rewrite Hmax, Nat.eqb_refl.
  eexists. split; [reflexivity|].
  unfold setEnv, record. cbn [env trace clock db limiter tracker afterCalls].
  rewrite Hr, Htr, <- !app_assoc.
  done.
Qed.
End RetryTheorems.








(** ** Circuit breaker *)

Section BreakerFacts.
Context {E : Type}.
Local Open Scope Z_scope.



End BreakerFacts.



(** While a probe is in flight the breaker is half-open, and [execute] lets
    a call that starts then through as well: only the state [Open] refuses. *)
Lemma half_open_admits (cb : CircuitBreaker) (now : Z) :
  state cb = HalfOpen -> admitCall cb now = inl cb.
Proof. intros Hs. unfold admitCall. by rewrite Hs. Qed.
(** ** Progress tracker *)

Section TrackerFacts.
Context {E : Type}.
Local Open Scope Z_scope.

Lemma updateProgress_spec (runId : string) (f : ScrapeProgress -> ScrapeProgress)
    (w : World E) :
  match progressOf runId w with
  | Some p => updateProgress runId f w
              = (Resolved tt, setDb w (setScrapeProgress (db w)
                                         (<[runId := f p]> (scrape_progress (db w)))))
  | None => updateProgress runId f w = (Rejected notFound, w)
  end.
Proof.
  unfold progressOf, updateProgress, bind, getDb. by destruct (scrape_progress (db w) !! runId).
Qed.

Lemma runOp_stats (runId : string) (op : TrackerOp) (w : World E) (p : ScrapeProgress) :
  progressOf runId w = Some p ->
  exists p', progressOf runId (snd (runOp runId op w)) = Some p'
             /\ stats p' = opStats op (stats p).
Proof.
  intros Hp. unfold progressOf in *.
  destruct op; cbn [runOp opStats];
    unfold initializeRun, startDistrict, completeDistrict, failDistrict, completeRun,
      failRun, updateProgress, bind, dateNow, getDb, putDb, emit;
    cbn; rewrite ?Hp; cbn; rewrite lookup_insert_eq; eexists; done.
Qed.

Lemma opStats_balanced (op : TrackerOp) (s : Stats) :
  statsBalanced s -> statsBalanced (opStats op s).
Proof. unfold statsBalanced. destruct op, s; cbn; lia. Qed.

Lemma runOps_balanced (runId : string) (ops : list TrackerOp) :
  forall (w : World E) (p : ScrapeProgress),
    progressOf runId w = Some p -> statsBalanced (stats p) ->
    exists p', progressOf runId (runOps runId ops w) = Some p' /\ statsBalanced (stats p').
Proof.
  induction ops as [|op ops IH]; intros w p Hp Hbal; [by exists p|].
  destruct (runOp_stats runId op w p Hp) as (p1 & Hp1 & Hs1).
  cbn [runOps]. apply (IH _ p1 Hp1). rewrite Hs1. by apply opStats_balanced.
Qed.

Lemma runOps_counts (runId : string) (ops : list TrackerOp) :
  forall (w : World E) (p : ScrapeProgress),
    progressOf runId w = Some p ->
    Forall (fun op => isInitialize op = false) ops ->
    exists p', progressOf runId (runOps runId ops w) = Some p'
      /\ total (stats p') = total (stats p)
      /\ pending (stats p') = pending (stats p) - countOps isStart ops
      /\ processing (stats p')
         = processing (stats p) + countOps isStart ops - countOps isFinish ops
      /\ completed (stats p') + failed (stats p')
         = completed (stats p) + failed (stats p) + countOps isFinish ops.
Proof.
  unfold countOps.
  induction ops as [|op ops IH]; intros w p Hp Hno.
  - exists p. cbn. repeat split; try done; lia.
  - inversion Hno as [|? ? Hop Hrest]; subst.
    destruct (runOp_stats runId op w p Hp) as (p1 & Hp1 & Hs1).
    destruct (IH _ p1 Hp1 Hrest) as (p' & Hp' & Ht & Hpe & Hpr & Hcf).
    exists p'. split; [exact Hp'|]. rewrite Ht, Hpe, Hpr, Hcf, Hs1.
    destruct op; try discriminate Hop; cbn; repeat split; lia.
Qed.
End TrackerFacts.

(** C3 -- Stats conservation.  [initializeRun] writes stats with
    [pending + processing + completed + failed = total]; every tracker
    operation ([startDistrict], [completeDistrict], [failDistrict],
    [initializeRun]) keeps that equation on the progress document, so it
    holds after every sequence of operations that starts with
    [initializeRun]; and when the operations after [initializeRun] for [n]
    items hold [n] starts and [n] completions or failures, the document ends
    with [completed + failed = total] and [pending = processing = 0]. *)
Theorem stats_conservation :
  forall (E : Type) (runId : string),
    (forall (n : Z) (w : World E),
        exists p, initializeRun runId n w
                  = (Resolved tt, snd (initializeRun runId n w))
                  /\ progressOf runId (snd (initializeRun runId n w)) = Some p
                  /\ statsBalanced (stats p))
    /\ (forall (op : TrackerOp) (w : World E) (p : ScrapeProgress),
          progressOf runId w = Some p -> statsBalanced (stats p) ->
          exists p', progressOf runId (snd (runOp runId op w)) = Some p'
                     /\ statsBalanced (stats p'))
    /\ (forall (n : Z) (ops : list TrackerOp) (w : World E),
          exists p, progressOf runId (runOps runId (OpInitializeRun n :: ops) w) = Some p
                    /\ statsBalanced (stats p))
    /\ (forall (items : list District) (ops : list TrackerOp) (w : World E),
          Forall (fun op => isInitialize op = false) ops ->
          length (List.filter isStart ops) = length items ->
          length (List.filter isFinish ops) = length items ->
          exists p,
            progressOf runId
              (runOps runId (OpInitializeRun (Z.of_nat (length items)) :: ops) w) = Some p
            /\ (completed (stats p) + failed (stats p) = total (stats p))%Z
            /\ pending (stats p) = 0%Z /\ processing (stats p) = 0%Z).
Proof.
  intros E runId.
  assert (Hinit : forall (n : Z) (w : World E),
             exists p, progressOf runId (snd (initializeRun runId n w)) = Some p
                       /\ stats p = {| total := n; pending := n; processing := 0;
                                       completed := 0; failed := 0 |}).
  { intros n w. unfold initializeRun, bind, dateNow, getDb, putDb, emit, progressOf. cbn.
    rewrite lookup_insert_eq. eexists. done. }
  split; [|split; [|split]].
  - intros n w. destruct (Hinit n w) as (p & Hp & Hs). exists p.
    split; [reflexivity|]. split; [exact Hp|]. rewrite Hs. unfold statsBalanced. cbn. lia.
  - intros op w p Hp Hbal. destruct (runOp_stats runId op w p Hp) as (p' & Hp' & Hs).
    exists p'. split; [exact Hp'|]. rewrite Hs. by apply opStats_balanced.
  - intros n ops w. destruct (Hinit n w) as (p & Hp & Hs).
    cbn [runOps runOp]. apply (runOps_balanced runId ops _ p Hp).
    rewrite Hs. unfold statsBalanced. cbn. lia.
  - intros items ops w Hno Hstart Hfinish.
    destruct (Hinit (Z.of_nat (length items)) w) as (p & Hp & Hs).
    destruct (runOps_counts runId ops _ p Hp Hno) as (p' & Hp' & Ht & Hpe & Hpr & Hcf).
    exists p'. cbn [runOps runOp]. split; [exact Hp'|].
    unfold countOps in *. rewrite Hstart in *. rewrite Hfinish in *.
    rewrite Hs in *. cbn in *. lia.
Qed.


Lemma stats_conservation_witness :
  let d1 := sampleDistrict "1" "Alpha" None StPending in
  let d2 := sampleDistrict "2" "Beta" None StPending in
  let ops := [OpStartDistrict d1; OpStartDistrict d2; OpCompleteDistrict d1 3;
              OpFailDistrict d2 "boom"] in
  exists p,
    progressOf "run_1" (runOps "run_1" (OpInitializeRun 2 :: ops) (sampleWorld tt 0)) = Some p
    /\ (completed (stats p) + failed (stats p) = total (stats p))%Z
    /\ pending (stats p) = 0%Z /\ processing (stats p) = 0%Z.
Proof.
  intros d1 d2 ops.
  destruct (stats_conservation unit "run_1") as (_ & _ & _ & Hdone).
  apply (Hdone [d1; d2] ops (sampleWorld tt 0)).
  - repeat constructor.
  - reflexivity.
  - reflexivity.
Defined.

(** ** Resume computation *)

Section ResumeFacts.
Context {E : Type}.

Lemma docsOf_Permutation {A} (m : gmap string A) : docsOf m ≡ₚ map_to_list m.
Proof. unfold docsOf. apply merge_sort_Permutation. Qed.

Lemma In_docsOf {A} (m : gmap string A) (id : string) (x : A) :
  In (id, x) (docsOf m) <-> m !! id = Some x.
Proof.
  rewrite <- list_elem_of_In, docsOf_Permutation. apply elem_of_map_to_list.
Qed.

Lemma NoDup_docsOf_ids {A} (m : gmap string A) : NoDup (List.map fst (docsOf m)).
Proof.
  change (List.map fst (docsOf m)) with (fst <$> docsOf m).
  rewrite docsOf_Permutation. apply NoDup_fst_map_to_list.
Qed.

Lemma has_In (ids : list string) (id : string) : has ids id = true <-> In id ids.
Proof.
  unfold has. rewrite existsb_exists. split.
  - intros (x & Hin & Heq). apply String.eqb_eq in Heq. by subst.
  - intros Hin. exists id. split; [done|]. apply String.eqb_refl.
Qed.

Lemma NoDup_filter_bool {A} (f : A -> bool) (l : list A) : NoDup l -> NoDup (List.filter f l).
Proof.
  induction 1 as [|x l Hx Hl IH]; cbn; [constructor|].
  destruct (f x); [|done]. constructor; [|done].
  rewrite list_elem_of_In, filter_In. rewrite list_elem_of_In in Hx. tauto.
Qed.

Lemma isSuccessOf_spec (runId : string) (l : DistrictLog) :
  isSuccessOf runId l = true <-> dl_runId l = runId /\ dl_status l = LogSuccess.
Proof.
  unfold isSuccessOf. rewrite andb_true_iff, String.eqb_eq, bool_decide_eq_true. done.
Qed.

Lemma isOpenStatus_spec (s : DistrictStatus) :
  isOpenStatus s = true <-> s = StPending \/ s = StProcessing.
Proof. destruct s; cbn; split; intros; try done; try tauto; by destruct H. Qed.

Lemma getUnprocessedDistricts_spec (runId : string) (w : World E) :
  exists ids,
    getUnprocessedDistricts runId w = (Resolved ids, w)
    /\ NoDup ids
    /\ forall id, In id ids <-> unprocessedSpec runId (db w) id.
Proof.
  unfold getUnprocessedDistricts, bind, getDb, ret. eexists. split; [reflexivity|].
  split.
  - apply NoDup_filter_bool.
    assert (Hnd := NoDup_docsOf_ids (districts (db w))).
    induction (docsOf (districts (db w))) as [|[k x] l IH]; cbn; [constructor|].
    cbn in Hnd. apply NoDup_cons in Hnd as [Hk Hl].
    destruct (isOpenStatus (d_status x)); cbn; [|by apply IH].
    constructor; [|by apply IH].
    intros Hin. apply Hk. rewrite list_elem_of_In in *.
    apply in_map_iff in Hin as ([k' x'] & Heq & Hin). cbn in Heq. subst k'.
    apply filter_In in Hin as [Hin _]. apply in_map_iff. by exists (k, x').
  - intros id. unfold unprocessedSpec. rewrite filter_In, in_map_iff, negb_true_iff.
    split.
    + intros (([k x] & Hk & Hin) & Hhas). cbn in Hk. subst k.
      apply filter_In in Hin as [Hin Hopen]. cbn in Hopen.
      split.
      * exists x. split; [by apply In_docsOf|by apply isOpenStatus_spec].
      * intros (l & Hl & Hrun & Hst & Hid).
        assert (has (List.map dl_districtId
                       (List.filter (isSuccessOf runId) (district_logs (db w)))) id = true)
          as Hyes; [|congruence].
        apply has_In, in_map_iff. exists l. split; [done|].
        apply filter_In. split; [done|]. by apply isSuccessOf_spec.
    + intros ((x & Hx & Hopen) & Hnot). split.
      * exists (id, x). split; [done|]. apply filter_In.
        split; [by apply In_docsOf|by apply isOpenStatus_spec].
      * destruct (has _ id) eqn:Hhas; [|done]. exfalso. apply Hnot.
        apply has_In, in_map_iff in Hhas as (l & Hid & Hin).
        apply filter_In in Hin as [Hin Hs]. apply isSuccessOf_spec in Hs as [? ?].
        by exists l.
Qed.
End ResumeFacts.

Lemma resume_example :
  getUnprocessedDistricts "run_new" (resumeWorld tt) = (Resolved ["4"; "5"]%string, resumeWorld tt).
Proof. vm_compute. reflexivity. Qed.

(** ** Rate limiter *)

Section LimiterFacts.
Context {E : Type}.
Variable hostname : string -> option string.
Local Open Scope Q_scope.

Lemma refilled_le (rl : RateLimiter) (t : Q) (last now : Z) :
  refilled rl t last now <= maxTokens rl.
Proof. unfold refilled. apply Q.le_min_l. Qed.

Lemma belowOne_false (t : Q) : belowOne t = false <-> 1 <= t.
Proof.
  unfold belowOne. rewrite negb_false_iff. apply Qle_bool_iff.
Qed.

Lemma belowOne_true (t : Q) : belowOne t = true <-> t < 1.
Proof.
  unfold belowOne. rewrite negb_true_iff. split.
  - intros H. apply Qnot_le_lt. intros Hle. apply Qle_bool_iff in Hle. congruence.
  - intros H. destruct (Qle_bool 1 t) eqn:Hb; [|done].
    apply Qle_bool_iff in Hb. exfalso. by apply (Qlt_not_le _ _ H).
Qed.

Lemma withinCapacity_setGlobal (rl : RateLimiter) (t : Q) (last : Z) :
  withinCapacity rl -> t <= maxTokens rl -> withinCapacity (setGlobal rl t last).
Proof. intros [Hg Hd] Ht. split; [exact Ht|exact Hd]. Qed.

Lemma withinCapacity_setBucket (rl : RateLimiter) (domain : string) (b : Bucket) :
  withinCapacity rl -> b_tokens b <= maxTokens rl -> withinCapacity (setBucket rl domain b).
Proof.
  intros [Hg Hd] Hb. split; [exact Hg|].
  intros d b' Hl. cbn in Hl. destruct (decide (domain = d)) as [->|Hne].
  - rewrite lookup_insert_eq in Hl. by inversion Hl; subst.
  - rewrite lookup_insert_ne in Hl by done. by eapply Hd.
Qed.

Lemma keeps_bind {A B} (I : RateLimiter -> Prop) (m : M E A) (k : A -> M E B) :
  keeps (E := E) I m -> (forall a, keeps (E := E) I (k a)) -> keeps (E := E) I (bind m k).
Proof.
  intros Hm Hk w Hw. unfold bind. specialize (Hm w Hw).
  destruct (m w) as [[a|e|] w']; cbn in *; [by apply Hk|done|done].
Qed.

Lemma keeps_frame {A} (I : RateLimiter -> Prop) (m : M E A) :
  (forall w, limiter (snd (m w)) = limiter w) -> keeps (E := E) I m.
Proof. intros H w Hw. by rewrite H. Qed.

Lemma keeps_refill : keeps (E := E) withinCapacity refill.
Proof.
  intros w Hw. cbn. apply withinCapacity_setGlobal; [done|apply refilled_le].
Qed.

Lemma keeps_refillDomain (domain : string) : keeps (E := E) withinCapacity (refillDomain domain).
Proof.
  intros w Hw. unfold refillDomain, bind, getLimiter. cbn.
  destruct (domainBuckets (limiter w) !! domain) as [b|] eqn:Hb; cbn; [|done].
  apply withinCapacity_setBucket; [done|apply refilled_le].
Qed.

Lemma keeps_delay (I : RateLimiter -> Prop) (ms : Z) : keeps (E := E) I (delay ms).
Proof. by apply keeps_frame. Qed.

Lemma keeps_throw {A} (I : RateLimiter -> Prop) (e : JsValue) : keeps (E := E) I (throw (A := A) e).
Proof. by apply keeps_frame. Qed.

Lemma keeps_ret {A} (I : RateLimiter -> Prop) (a : A) : keeps (E := E) I (ret a).
Proof. by apply keeps_frame. Qed.

Lemma keeps_never {A} (I : RateLimiter -> Prop) : keeps (E := E) I (never (A := A)).
Proof. by apply keeps_frame. Qed.

Lemma keeps_getLimiter (I : RateLimiter -> Prop) : keeps (E := E) I getLimiter.
Proof. by apply keeps_frame. Qed.

Lemma keeps_waitDomain (fuel : nat) (domain : string) :
  keeps (E := E) withinCapacity (waitDomain fuel domain).
Proof.
  induction fuel as [|fuel IH]; cbn [waitDomain];
    (apply keeps_bind; [apply keeps_getLimiter|]); intros rl;
    destruct (domainBuckets rl !! domain) as [b|]; try apply keeps_throw;
    destruct (belowOne (b_tokens b)); try apply keeps_ret; try apply keeps_never.
  apply keeps_bind; [apply keeps_delay|]. intros _.
  apply keeps_bind; [apply keeps_refillDomain|]. intros _. exact IH.
Qed.

Lemma keeps_waitGlobal (fuel : nat) : keeps (E := E) withinCapacity (waitGlobal fuel).
Proof.
  induction fuel as [|fuel IH]; cbn [waitGlobal];
    (apply keeps_bind; [apply keeps_getLimiter|]); intros rl;
    destruct (belowOne (tokens rl)); try apply keeps_ret; try apply keeps_never.
  apply keeps_bind; [apply keeps_delay|]. intros _.
  apply keeps_bind; [apply keeps_refill|]. intros _. exact IH.
Qed.

Lemma Qminus_one_le (t c : Q) : t <= c -> t - 1 <= c.
Proof. intros H. lra. Qed.

Lemma keeps_takeGlobalToken : keeps (E := E) withinCapacity takeGlobalToken.
Proof.
  intros w Hw. cbn. apply withinCapacity_setGlobal; [done|].
  apply Qminus_one_le, Hw.
Qed.

Lemma keeps_takeDomainToken (domain : string) :
  keeps (E := E) withinCapacity (takeDomainToken domain).
Proof.
  intros w Hw. unfold takeDomainToken, bind, getLimiter. cbn.
  destruct (domainBuckets (limiter w) !! domain) as [b|] eqn:Hb; cbn; [|done].
  apply withinCapacity_setBucket; [done|]. cbn. apply Qminus_one_le.
  destruct Hw as [_ Hd]. by eapply Hd.
Qed.

Lemma keeps_resolveDomain (url : option string) :
  keeps (E := E) withinCapacity (resolveDomain hostname url).
Proof.
  intros w Hw. unfold resolveDomain.
  destruct url as [u|]; [|done]. destruct (String.eqb u ""); [done|].
  destruct (hostname u) as [d|]; [|done].
  unfold bind, getLimiter. cbn.
  destruct (domainBuckets (limiter w) !! d); cbn; [done|].
  apply withinCapacity_setBucket; [done|]. cbn. apply Qle_refl.
Qed.

Lemma keeps_waitForToken (fuel : nat) (url : option string) :
  keeps (E := E) withinCapacity (waitForToken hostname fuel url).
Proof.
  unfold waitForToken. apply keeps_bind; [apply keeps_resolveDomain|]. intros domain.
  apply keeps_bind.
  - unfold acquireDomain. destruct domain as [d|]; [|by apply keeps_frame].
    destruct (String.eqb d ""); [by apply keeps_frame|].
    apply keeps_bind; [apply keeps_refillDomain|]. intros _.
    apply keeps_bind; [apply keeps_waitDomain|]. intros _. apply keeps_takeDomainToken.
  - intros _. unfold acquireGlobal.
    apply keeps_bind; [apply keeps_refill|]. intros _.
    apply keeps_bind; [apply keeps_waitGlobal|]. intros _. apply keeps_takeGlobalToken.
Qed.

Lemma newRateLimiter_withinCapacity (capacity rate : Q) (now : Z) :
  withinCapacity (newRateLimiter capacity rate now).
Proof. split; [apply Qle_refl|]. intros d b Hl. cbn in Hl. by rewrite lookup_empty in Hl. Qed.

Lemma runLimiterOp_withinCapacity (op : LimiterOp) (w : World E) :
  withinCapacity (limiter w) -> withinCapacity (limiter (runLimiterOp hostname op w)).
Proof.
  intros Hw. destruct op; cbn [runLimiterOp].
  - revert w Hw. apply keeps_bind; [apply keeps_refill|]. intros _. by apply keeps_frame.
  - revert w Hw. unfold getDomainTokenCount.
    apply keeps_bind; [apply keeps_getLimiter|]. intros rl.
    destruct (domainBuckets rl !! domain); [|apply keeps_ret].
    apply keeps_bind; [apply keeps_refillDomain|]. intros _.
    apply keeps_frame. intros w. unfold bind, getLimiter. cbn.
    by destruct (domainBuckets (limiter w) !! domain).
  - by apply keeps_waitForToken.
  - cbn. apply newRateLimiter_withinCapacity.
  - done.
Qed.

Lemma wait_suffices (rl : RateLimiter) (t : Q) :
  0 < refillRate rl -> t < 1 ->
  1 <= t + inject_Z (timerDelay (inject_Z (waitTimeFor rl t))) / 1000 * refillRate rl.
Proof.
  intros Hrate Ht. unfold timerDelay, waitTimeFor. rewrite Qfloor_Z.
  set (x := (1 - t) / refillRate rl * 1000).
  assert (Hx : x <= inject_Z (Z.max 1 (Qceiling x))).
  { apply Qle_trans with (inject_Z (Qceiling x)); [apply Qle_ceiling|].
    rewrite <- Zle_Qle. lia. }
  assert (Hgoal : 1 - t == x / 1000 * refillRate rl).
  { subst x. field. intros H0. rewrite H0 in Hrate. by apply Qlt_irrefl in Hrate. }
  assert (Hmono : x / 1000 * refillRate rl
                  <= inject_Z (Z.max 1 (Qceiling x)) / 1000 * refillRate rl).
  { apply Qmult_le_compat_r; [|by apply Qlt_le_weak].
    apply Qmult_le_compat_r; [exact Hx|]. done. }
  lra.
Qed.

Lemma sameButBuckets_refl (w : World E) : sameButBuckets w w.
Proof. by repeat split. Qed.

Lemma sameButBuckets_trans (w1 w2 w3 : World E) :
  sameButBuckets w1 w2 -> sameButBuckets w2 w3 -> sameButBuckets w1 w3.
Proof.
  intros (? & ? & ? & ? & ?) (? & ? & ? & ? & ?). repeat split; congruence.
Qed.

Lemma globalStep_refl (w : World E) : globalStep w w.
Proof. split; [apply sameButBuckets_refl|done]. Qed.

Lemma globalStep_trans (w1 w2 w3 : World E) :
  globalStep w1 w2 -> globalStep w2 w3 -> globalStep w1 w3.
Proof.
  intros [? ?] [? ?]. split; [by eapply sameButBuckets_trans|congruence].
Qed.

Lemma domainStep_refl (d : string) (w : World E) : domainStep d w w.
Proof. split; [apply sameButBuckets_refl|done]. Qed.

Lemma domainStep_trans (d : string) (w1 w2 w3 : World E) :
  domainStep d w1 w2 -> domainStep d w2 w3 -> domainStep d w1 w3.
Proof.
  intros (? & ? & ? & H12) (? & ? & ? & H23).
  split; [by eapply sameButBuckets_trans|]. repeat split; try congruence.
  intros d' Hd. rewrite H23, H12; done.
Qed.

Lemma waitGlobal_spec (fuel : nat) :
  forall w : World E,
    exists r w', waitGlobal fuel w = (r, w')
      /\ globalStep w w'
      /\ match r with
         | Resolved _ => 1 <= tokens (limiter w')
         | Rejected _ => False
         | Pending => True
         end.
Proof.
  induction fuel as [|fuel IH]; intros w; cbn [waitGlobal]; unfold bind at 1, getLimiter;
    cbn -[waitGlobal bind delay refill];
    destruct (belowOne (tokens (limiter w))) eqn:Hb;
    try (exists (Resolved tt), w; split; [done|]; split; [apply globalStep_refl|];
         by apply belowOne_false);
    try (exists Pending, w; split; [done|]; split; [apply globalStep_refl|done]).
  unfold bind, delay, sleep, refill, dateNow, getLimiter, putLimiter.
  cbn -[waitGlobal].
  match goal with |- context [waitGlobal fuel ?w1] =>
    destruct (IH w1) as (r & w' & Hrun & Hstep & Hres); rewrite Hrun end.
  exists r, w'. split; [done|]. split; [|done].
  eapply globalStep_trans; [|exact Hstep]. by repeat split.
Qed.

Lemma waitGlobal_terminates (fuel : nat) (w : World E) :
  1 <= maxTokens (limiter w) -> 0 < refillRate (limiter w) ->
  lastRefill (limiter w) = clock w ->
  exists w', waitGlobal (S fuel) w = (Resolved tt, w').
Proof.
  intros Hcap Hrate Hlast. cbn [waitGlobal]. unfold bind at 1, getLimiter.
  cbn -[waitGlobal bind delay refill].
  destruct (belowOne (tokens (limiter w))) eqn:Hb; [|by eexists].
  unfold bind, delay, sleep, refill, dateNow, getLimiter, putLimiter.
  cbn -[waitGlobal].
  match goal with |- context [waitGlobal fuel ?x] => set (w1 := x) end.
  assert (Hready : belowOne (tokens (limiter w1)) = false).
  { apply belowOne_false. subst w1. cbn. unfold refilled. cbn.
    apply Q.min_glb; [done|]. rewrite Hlast.
    replace (clock w + timerDelay (inject_Z (waitTimeFor (limiter w) (tokens (limiter w))))
             - clock w)%Z
      with (timerDelay (inject_Z (waitTimeFor (limiter w) (tokens (limiter w))))) by lia.
    apply wait_suffices; [done|]. by apply belowOne_true. }
  clearbody w1.
  exists w1. destruct fuel; cbn [waitGlobal]; unfold bind, getLimiter; cbn; by rewrite Hready.
Qed.

Lemma waitDomain_spec (fuel : nat) (d : string) :
  forall (w : World E) (b : Bucket),
    domainBuckets (limiter w) !! d = Some b ->
    exists r w' b', waitDomain fuel d w = (r, w')
      /\ domainStep d w w'
      /\ domainBuckets (limiter w') !! d = Some b'
      /\ match r with
         | Resolved _ => 1 <= b_tokens b'
         | Rejected _ => False
         | Pending => True
         end.
Proof.
  induction fuel as [|fuel IH]; intros w b Hb; cbn [waitDomain]; unfold bind at 1, getLimiter;
    cbn -[waitDomain bind delay refillDomain]; rewrite Hb;
    destruct (belowOne (b_tokens b)) eqn:Hlow;
    try (exists (Resolved tt), w, b; split; [done|]; split; [apply domainStep_refl|];
         split; [done|]; by apply belowOne_false);
    try (exists Pending, w, b; split; [done|]; split; [apply domainStep_refl|done]).
  unfold bind, delay, sleep, refillDomain, dateNow, getLimiter, putLimiter.
  cbn -[waitDomain]. rewrite Hb. cbn -[waitDomain].
  match goal with |- context [waitDomain fuel d ?x] => set (w1 := x) end.
  destruct (IH w1 {| b_tokens := refilled (limiter w) (b_tokens b) (b_lastRefill b) (clock w1);
                     b_lastRefill := clock w1 |})
    as (r & w' & b' & Hrun & Hstep & Hb' & Hres).
  { subst w1. cbn. by rewrite lookup_insert_eq. }
  rewrite Hrun. exists r, w', b'. split; [done|]. split; [|done].
  eapply domainStep_trans; [|exact Hstep]. subst w1. repeat split; cbn; try done.
  intros d' Hd. by rewrite lookup_insert_ne.
Qed.

Lemma waitDomain_terminates (fuel : nat) (d : string) (w : World E) (b : Bucket) :
  domainBuckets (limiter w) !! d = Some b ->
  1 <= maxTokens (limiter w) -> 0 < refillRate (limiter w) ->
  b_lastRefill b = clock w ->
  exists w', waitDomain (S fuel) d w = (Resolved tt, w').
Proof.
  intros Hb Hcap Hrate Hlast. cbn [waitDomain]. unfold bind at 1, getLimiter.
  cbn -[waitDomain bind delay refillDomain]. rewrite Hb.
  destruct (belowOne (b_tokens b)) eqn:Hlow; [|by eexists].
  unfold bind, delay, sleep, refillDomain, dateNow, getLimiter, putLimiter.
  cbn -[waitDomain]. rewrite Hb. cbn -[waitDomain].
  match goal with |- context [waitDomain fuel d ?x] => set (w1 := x) end.
  assert (Hready : exists b1, domainBuckets (limiter w1) !! d = Some b1
                              /\ belowOne (b_tokens b1) = false).
  { eexists. split; [subst w1; cbn; by rewrite lookup_insert_eq|].
    apply belowOne_false. cbn. unfold refilled.
    apply Q.min_glb; [done|]. rewrite Hlast.
    replace (clock w + timerDelay (inject_Z (waitTimeFor (limiter w) (b_tokens b)))
             - clock w)%Z
      with (timerDelay (inject_Z (waitTimeFor (limiter w) (b_tokens b)))) by lia.
    apply wait_suffices; [done|]. by apply belowOne_true. }
  clearbody w1. destruct Hready as (b1 & Hb1 & Hok).
  exists w1. destruct fuel; cbn [waitDomain]; unfold bind, getLimiter; cbn;
    by rewrite Hb1, Hok.
Qed.

Lemma acquireGlobal_spec (fuel : nat) (w : World E) :
  exists r w', acquireGlobal fuel w = (r, w')
    /\ globalStep w w'
    /\ match r with
       | Resolved _ => exists t, 1 <= t /\ tokens (limiter w') = t - 1
       | Rejected _ => False
       | Pending => True
       end.
Proof.
  unfold acquireGlobal. unfold bind at 1. unfold refill at 1, bind, dateNow, getLimiter,
    putLimiter. cbn -[waitGlobal].
  match goal with |- context [waitGlobal fuel ?x] =>
    destruct (waitGlobal_spec fuel x) as (r & w1 & Hrun & Hstep & Hres); rewrite Hrun end.
  assert (Hfirst : globalStep w w1).
  { eapply globalStep_trans; [|exact Hstep]. by repeat split. }
  destruct r as [[]|e|]; [|done|].
  - eexists _, _. split; [reflexivity|]. split.
    + eapply globalStep_trans; [exact Hfirst|]. by repeat split.
    + exists (tokens (limiter w1)). done.
  - eexists _, _. split; [reflexivity|]. done.
Qed.

Lemma acquireGlobal_terminates (fuel : nat) (w : World E) :
  1 <= maxTokens (limiter w) -> 0 < refillRate (limiter w) ->
  exists w', acquireGlobal (S fuel) w = (Resolved tt, w').
Proof.
  intros Hcap Hrate. unfold acquireGlobal. unfold bind at 1. unfold refill at 1, bind,
    dateNow, getLimiter, putLimiter. cbn -[waitGlobal].
  match goal with |- context [waitGlobal (S fuel) ?x] =>
    destruct (waitGlobal_terminates fuel x) as (w1 & Hrun); [done|done|done|];
    rewrite Hrun end.
  by eexists.
Qed.

Lemma acquireDomain_spec (fuel : nat) (d : string) (w : World E) (b : Bucket) :
  d <> ""%string ->
  domainBuckets (limiter w) !! d = Some b ->
  exists r w', acquireDomain fuel (Some d) w = (r, w')
    /\ domainStep d w w'
    /\ match r with
       | Resolved _ =>
           exists b1, 1 <= b_tokens b1
             /\ domainBuckets (limiter w') !! d
                = Some {| b_tokens := b_tokens b1 - 1; b_lastRefill := b_lastRefill b1 |}
       | Rejected _ => False
       | Pending => True
       end.
Proof.
  intros Hd Hb. unfold acquireDomain.
  destruct (String.eqb_spec d ""); [done|].
  unfold bind at 1. unfold refillDomain at 1, bind, dateNow, getLimiter, putLimiter.
  cbn -[waitDomain takeDomainToken]. rewrite Hb. cbn -[waitDomain takeDomainToken].
  match goal with |- context [waitDomain fuel d ?x] => set (w0 := x) end.
  destruct (waitDomain_spec fuel d w0
              {| b_tokens := refilled (limiter w) (b_tokens b) (b_lastRefill b) (clock w);
                 b_lastRefill := clock w |})
    as (r & w1 & b1 & Hrun & Hstep & Hb1 & Hres).
  { subst w0. cbn. by rewrite lookup_insert_eq. }
  rewrite Hrun.
  assert (Hfirst : domainStep d w w1).
  { eapply domainStep_trans; [|exact Hstep]. subst w0. repeat split; cbn; try done.
    intros d' Hne. by rewrite lookup_insert_ne. }
  destruct r as [[]|e|]; [|done|].
  - unfold takeDomainToken, bind, getLimiter, putLimiter. cbn. rewrite Hb1. cbn.
    eexists _, _. split; [reflexivity|]. split.
    + eapply domainStep_trans; [exact Hfirst|]. repeat split; cbn; try done.
      intros d' Hne. by rewrite lookup_insert_ne.
    + exists b1. split; [done|]. cbn. by rewrite lookup_insert_eq.
  - eexists _, _. split; [reflexivity|]. done.
Qed.

Lemma acquireDomain_terminates (fuel : nat) (d : string) (w : World E) (b : Bucket) :
  domainBuckets (limiter w) !! d = Some b ->
  1 <= maxTokens (limiter w) -> 0 < refillRate (limiter w) ->
  exists w', acquireDomain (S fuel) (Some d) w = (Resolved tt, w').
Proof.
  intros Hb Hcap Hrate. unfold acquireDomain.
  destruct (String.eqb d ""); [by eexists|].
  unfold bind at 1. unfold refillDomain at 1, bind, dateNow, getLimiter, putLimiter.
  cbn -[waitDomain takeDomainToken]. rewrite Hb. cbn -[waitDomain takeDomainToken].
  match goal with |- context [waitDomain (S fuel) d ?x] => set (w0 := x) end.
  destruct (waitDomain_terminates fuel d w0
              {| b_tokens := refilled (limiter w) (b_tokens b) (b_lastRefill b) (clock w);
                 b_lastRefill := clock w |}) as (w1 & Hrun); try done.
  { subst w0. cbn. by rewrite lookup_insert_eq. }
  rewrite Hrun.
  destruct (waitDomain_spec (S fuel) d w0
              {| b_tokens := refilled (limiter w) (b_tokens b) (b_lastRefill b) (clock w);
                 b_lastRefill := clock w |})
    as (r & w1' & b1 & Hrun' & _ & Hb1 & _).
  { subst w0. cbn. by rewrite lookup_insert_eq. }
  rewrite Hrun in Hrun'. inversion Hrun'; subst r w1'.
  unfold takeDomainToken, bind, getLimiter, putLimiter. cbn. rewrite Hb1. by eexists.
Qed.

Lemma resolveDomain_spec (url : option string) (w : World E) :
  exists dom w0,
    resolveDomain hostname url w = (Resolved dom, w0)
    /\ trace w0 = trace w /\ clock w0 = clock w
    /\ match dom with
       | Some d => domainStep d w w0
                   /\ (exists b, domainBuckets (limiter w0) !! d = Some b)
                   /\ (exists u, url = Some u /\ u <> ""%string /\ hostname u = Some d)
       | None => w0 = w /\ chargedDomain hostname url = None
       end.
Proof.
  unfold resolveDomain, chargedDomain. destruct url as [u|]; [|by exists None, w].
  destruct (String.eqb_spec u ""); [by exists None, w|].
  destruct (hostname u) as [d|] eqn:Hh; [|by exists None, w].
  unfold bind, getLimiter, dateNow, putLimiter. cbn.
  destruct (domainBuckets (limiter w) !! d) as [b|] eqn:Hb; cbn.
  - exists (Some d), w. repeat split; try done; [by exists b|by exists u].
  - eexists (Some d), _. split; [reflexivity|]. repeat split; cbn; try done.
    + intros d' Hne. by rewrite lookup_insert_ne.
    + eexists. by rewrite lookup_insert_eq.
    + by exists u.
Qed.

Lemma chargedDomain_Some (url : option string) (d : string) :
  chargedDomain hostname url = Some d <->
  d <> ""%string /\ exists u, url = Some u /\ u <> ""%string /\ hostname u = Some d.
Proof.
  unfold chargedDomain. destruct url as [u|]; [|split; [done|by intros (_ & ? & ? & _)]].
  destruct (String.eqb_spec u "").
  { split; [done|]. intros (_ & u' & [= <-] & Hne & _). done. }
  destruct (hostname u) as [d'|] eqn:Hh.
  - destruct (String.eqb_spec d' "").
    + split; [done|]. intros (Hd & u' & [= <-] & _ & Hh'). congruence.
    + split.
      * intros [= <-]. split; [done|]. by exists u.
      * intros (_ & u' & [= <-] & _ & Hh'). congruence.
  - split; [done|]. intros (_ & u' & [= <-] & _ & Hh'). congruence.
Qed.

(** What a call of [waitForToken] that returns has done, phase by phase. *)
Lemma waitForToken_returns (fuel : nat) (url : option string) (w w' : World E) :
  waitForToken hostname fuel url w = (Resolved tt, w') ->
  exists dom w0 w1,
    resolveDomain hostname url w = (Resolved dom, w0)
    /\ acquireDomain fuel dom w0 = (Resolved tt, w1)
    /\ acquireGlobal fuel w1 = (Resolved tt, w')
    /\ globalStep w1 w'
    /\ (exists t, 1 <= t /\ tokens (limiter w') = t - 1)
    /\ forall d, chargedDomain hostname url = Some d ->
          dom = Some d
          /\ domainStep d w w1
          /\ exists b1, 1 <= b_tokens b1
                /\ domainBuckets (limiter w1) !! d
                   = Some {| b_tokens := b_tokens b1 - 1; b_lastRefill := b_lastRefill b1 |}.
Proof.
  intros Hrun. unfold waitForToken in Hrun. unfold bind at 1 in Hrun.
  destruct (resolveDomain_spec url w) as (dom & w0 & Hres & _ & _ & Hdom).
  rewrite Hres in Hrun. unfold bind at 1 in Hrun.
  destruct (acquireDomain fuel dom w0) as [[[]|e|] w1] eqn:Hacq; try done.
  destruct (acquireGlobal_spec fuel w1) as (r & w2 & Hglob & Hstep & Hr).
  rewrite Hglob in Hrun. inversion Hrun; subst r w2.
  exists dom, w0, w1.
  split; [done|]. split; [done|]. split; [done|]. split; [exact Hstep|].
  split; [exact Hr|].
  intros d Hcharged. apply chargedDomain_Some in Hcharged as (Hd & u & -> & Hu & Hh).
    destruct dom as [d'|].
  * destruct Hdom as (Hstep0 & (b & Hb) & (u' & [= <-] & _ & Hh')).
    assert (d' = d) by congruence. subst d'.
    destruct (acquireDomain_spec fuel d w0 b Hd Hb) as (r & w1' & Hacq' & Hstep1 & Hr1).
    rewrite Hacq in Hacq'. inversion Hacq'; subst r w1'.
    split; [done|]. split; [by eapply domainStep_trans|]. exact Hr1.
  * destruct Hdom as [_ Hnone]. unfold chargedDomain in Hnone.
    destruct (String.eqb_spec u ""); [done|]. rewrite Hh in Hnone.
    by destruct (String.eqb_spec d "").
Qed.

Lemma waitForToken_terminates (fuel : nat) (url : option string) (w : World E) :
  1 <= maxTokens (limiter w) -> 0 < refillRate (limiter w) ->
  exists w', waitForToken hostname (S fuel) url w = (Resolved tt, w').
Proof.
  intros Hcap Hrate. unfold waitForToken. unfold bind at 1.
  destruct (resolveDomain_spec url w) as (dom & w0 & Hres & _ & _ & Hdom).
  rewrite Hres. unfold bind at 1.
  assert (Hparams : maxTokens (limiter w0) = maxTokens (limiter w)
                    /\ refillRate (limiter w0) = refillRate (limiter w)).
  { destruct dom as [d|]; [|by destruct Hdom as [-> _]].
    destruct Hdom as ((Hsame & _) & _). destruct Hsame as (_ & _ & _ & ? & ?). done. }
  destruct Hparams as [Hm Hr].
  assert (Hdomain : exists w1, acquireDomain (S fuel) dom w0 = (Resolved tt, w1)
                               /\ maxTokens (limiter w1) = maxTokens (limiter w)
                               /\ refillRate (limiter w1) = refillRate (limiter w)).
  { destruct dom as [d|]; [|exists w0; by rewrite Hm, Hr].
    destruct Hdom as (_ & (b & Hb) & _).
    destruct (acquireDomain_terminates fuel d w0 b Hb) as (w1 & Hacq);
      [by rewrite Hm|by rewrite Hr|].
    exists w1. split; [done|].
    destruct (String.eqb_spec d "") as [->|Hne].
    - cbn in Hacq. inversion Hacq; subst. done.
    - destruct (acquireDomain_spec (S fuel) d w0 b Hne Hb) as (r & w1' & Hacq' & Hstep & _).
      rewrite Hacq in Hacq'. inversion Hacq'; subst r w1'.
      destruct Hstep as ((_ & _ & _ & ? & ?) & _). split; congruence. }
  destruct Hdomain as (w1 & Hacq & Hm1 & Hr1). rewrite Hacq.
  apply acquireGlobal_terminates; [by rewrite Hm1|by rewrite Hr1].
Qed.
End LimiterFacts.



(** C8 -- Token bounds.  A new limiter holds no more than [maxTokens]
    tokens in any bucket; [refill], [refillDomain] and [waitForToken] keep
    it so, hence so does every sequence of them from a new limiter; and
    when [waitForToken] returns, the global bucket and the domain bucket it
    charged hold a non-negative number of tokens. *)
Theorem token_bounds :
  forall (E : Type) (hostname : string -> option string),
    (forall (capacity rate : Q) (now : Z), withinCapacity (newRateLimiter capacity rate now))
    /\ (forall (op : LimiterOp) (w : World E),
          withinCapacity (limiter w) ->
          withinCapacity (limiter (runLimiterOp hostname op w)))
    /\ (forall (ops : list LimiterOp) (capacity rate : Q) (w : World E),
          limiter w = newRateLimiter capacity rate (clock w) ->
          withinCapacity (limiter (runLimiterOps hostname ops w)))
    /\ (forall (fuel : nat) (url : option string) (w w' : World E),
          waitForToken hostname fuel url w = (Resolved tt, w') ->
          (0 <= tokens (limiter w'))%Q
          /\ forall d, chargedDomain hostname url = Some d ->
                exists b, domainBuckets (limiter w') !! d = Some b /\ (0 <= b_tokens b)%Q).
Proof.
  intros E hostname. split; [|split; [|split]].
  - apply newRateLimiter_withinCapacity.
  - intros op w. apply runLimiterOp_withinCapacity.
  - intros ops capacity rate w Hnew.
    assert (Hw : withinCapacity (limiter w)).
    { rewrite Hnew. apply newRateLimiter_withinCapacity. }
    clear Hnew. revert w Hw. unfold runLimiterOps.
    induction ops as [|op ops IH]; intros w Hw; [done|].
    cbn [fold_left]. apply IH. by apply runLimiterOp_withinCapacity.
  - intros fuel url w w' Hrun.
    destruct (waitForToken_returns hostname fuel url w w' Hrun)
      as (dom & w0 & w1 & Hres & Hacq & Hglob & Hstep & (t & Ht & Htok) & Hdom).
    split.
    + rewrite Htok. clear -Ht. lra.
    + intros d Hcharged. destruct (Hdom d Hcharged) as (_ & _ & b1 & Hb1 & Hbucket).
      destruct Hstep as [_ Hbuckets]. rewrite Hbuckets, Hbucket.
      eexists. split; [reflexivity|]. cbn. clear -Hb1. lra.
Qed.

Lemma token_bounds_witness :
  let w := sampleWorld tt 0 in
  let w' := snd (waitForToken sampleHostname 1 (Some "https://alpha.example.org"%string) w) in
  withinCapacity (limiter (runLimiterOp sampleHostname
                             (OpWaitForToken 1 (Some "https://alpha.example.org"%string)) w))
  /\ (0 <= tokens (limiter w'))%Q
  /\ exists b, domainBuckets (limiter w') !! "alpha.example.org"%string = Some b
               /\ (0 <= b_tokens b)%Q.
Proof.
  intros w w'.
  destruct (token_bounds unit sampleHostname) as (Hnew & Hstep & _ & Hacquire).
  split.
  - apply Hstep. apply (Hnew 30%Q (1 # 2)%Q 0%Z).
  - destruct (Hacquire 1%nat (Some "https://alpha.example.org"%string) w w') as [Hg Hd].
    { reflexivity. }
    split; [exact Hg|]. apply Hd. reflexivity.
Defined.

(** ** Orchestrator: what a computation adds to the trace *)

Section TraceFacts.
Context {E : Type}.
Variable P : Event -> Prop.

Lemma emitsOnly_frame {A} (m : M E A) :
  (forall w, trace (snd (m w)) = trace w) -> emitsOnly P m.
Proof. intros H w. exists []. rewrite H, app_nil_r. by split. Qed.

Lemma emitsOnly_ret {A} (a : A) : emitsOnly (E := E) P (ret a).
Proof. by apply emitsOnly_frame. Qed.

Lemma emitsOnly_throw {A} (e : JsValue) : emitsOnly (E := E) P (throw (A := A) e).
Proof. by apply emitsOnly_frame. Qed.

Lemma emitsOnly_never {A} : emitsOnly (E := E) P (never (A := A)).
Proof. by apply emitsOnly_frame. Qed.

Lemma emitsOnly_bind {A B} (m : M E A) (k : A -> M E B) :
  emitsOnly P m -> (forall a, emitsOnly P (k a)) -> emitsOnly P (bind m k).
Proof.
  intros Hm Hk w. unfold bind. destruct (Hm w) as (evs & Htr & Hall).
  destruct (m w) as [[a|e|] w1]; cbn in *; try by exists evs.
  destruct (Hk a w1) as (evs' & Htr' & Hall'). exists (evs ++ evs').
  rewrite Htr', Htr, app_assoc. split; [done|]. by apply Forall_app.
Qed.

Lemma emitsOnly_tryCatch {A} (body : M E A) (handler : JsValue -> M E A) :
  emitsOnly P body -> (forall e, emitsOnly P (handler e)) -> emitsOnly P (tryCatch body handler).
Proof.
  intros Hm Hk w. unfold tryCatch. destruct (Hm w) as (evs & Htr & Hall).
  destruct (body w) as [[a|e|] w1]; cbn in *; try by exists evs.
  destruct (Hk e w1) as (evs' & Htr' & Hall'). exists (evs ++ evs').
  rewrite Htr', Htr, app_assoc. split; [done|]. by apply Forall_app.
Qed.

Lemma emitsOnly_tryFinally {A} (body : M E A) (cleanup : M E unit) :
  emitsOnly P body -> emitsOnly P cleanup -> emitsOnly P (tryFinally body cleanup).
Proof.
  intros Hm Hk w. unfold tryFinally. destruct (Hm w) as (evs & Htr & Hall).
  destruct (Hk (snd (body w))) as (evs' & Htr' & Hall').
  destruct (body w) as [[a|e|] w1]; cbn in *; try by exists evs.
  - exists (evs ++ evs'). split; [|by apply Forall_app].
    destruct (cleanup w1) as [[[]|e'|] w2]; cbn in *; by rewrite Htr', Htr, app_assoc.
  - exists (evs ++ evs'). split; [|by apply Forall_app].
    destruct (cleanup w1) as [[[]|e'|] w2]; cbn in *; by rewrite Htr', Htr, app_assoc.
Qed.

Lemma emitsOnly_emit (ev : Event) : P ev -> emitsOnly (E := E) P (emit ev).
Proof. intros H w. exists [ev]. split; [done|]. by constructor. Qed.

Lemma emitsOnly_sleep (ms : Q) : P (EvSleep ms) -> emitsOnly (E := E) P (sleep ms).
Proof. intros H w. exists [EvSleep ms]. split; [done|]. by constructor. Qed.

Lemma emitsOnly_call {A} (operation argument : string) (b : E -> Outcome A * E) :
  P (EvCall operation argument) -> emitsOnly P (call operation argument b).
Proof.
  intros H w. exists [EvCall operation argument]. unfold call.
  destruct (b (env w)). split; [done|]. by constructor.
Qed.

Lemma emitsOnly_retryLoop {T} (fn : M E T) (opts : RequiredRetryOptions E)
    (attempts : list nat) (last : option JsValue) :
  emitsOnly P fn ->
  (forall e n, emitsOnly P (onRetry opts e n)) ->
  (forall level message, P (EvLog level message)) ->
  (forall ms, P (EvSleep ms)) ->
  emitsOnly P (retryLoop fn opts attempts last).
Proof.
  intros Hfn Hcb Hlog Hsleep. revert last.
  induction attempts as [|attempt rest IH]; intros last; cbn [retryLoop].
  - apply emitsOnly_throw.
  - apply emitsOnly_tryCatch; [done|]. intros e.
    destruct (negb _); [apply emitsOnly_throw|].
    destruct (_ =? _)%nat.
    + apply emitsOnly_bind; [by apply emitsOnly_emit|]. intros _. apply emitsOnly_throw.
    + apply emitsOnly_bind; [by apply emitsOnly_emit|]. intros _.
      apply emitsOnly_bind; [apply Hcb|]. intros _.
      apply emitsOnly_bind; [by apply emitsOnly_sleep|]. intros _. apply IH.
Qed.

Lemma emitsOnly_withRetry {T} (fn : M E T) (options : RetryOptions E) :
  emitsOnly P fn ->
  o_onRetry options = None ->
  (forall level message, P (EvLog level message)) ->
  (forall ms, P (EvSleep ms)) ->
  emitsOnly P (withRetry fn (Some options)).
Proof.
  intros Hfn Hcb Hlog Hsleep. unfold withRetry. apply emitsOnly_retryLoop; try done.
  intros e n. cbn. rewrite Hcb. apply emitsOnly_ret.
Qed.
End TraceFacts.

Ltac emits_step Hord :=
  first
    [ assumption
    | match goal with H : forall _, emitsOnly _ _ |- _ => apply H end
    | match goal with H : forall _ _, emitsOnly _ _ |- _ => apply H end
    | apply emitsOnly_ret | apply emitsOnly_throw | apply emitsOnly_never
    | apply emitsOnly_bind; [|intros ?]
    | apply emitsOnly_tryCatch; [|intros ?]
    | apply emitsOnly_tryFinally
    | apply emitsOnly_emit; apply Hord; reflexivity
    | apply emitsOnly_sleep; apply Hord; reflexivity
    | apply emitsOnly_call; apply Hord; reflexivity
    | apply emitsOnly_frame; intros ?; reflexivity
    | match goal with
      | |- emitsOnly _ (match ?x with _ => _ end) => destruct x
      | |- emitsOnly _ (let '(_, _) := ?x in _) => destruct x
      end ].

Ltac emits Hord := repeat emits_step Hord.

Section OrdinaryTrace.
Context {E : Type}.
Variable P : Event -> Prop.
Hypothesis Hord : forall ev, ordinary ev = true -> P ev.
Variable C : Collaborators E.
Variable fuel : nat.

Lemma emitsOnly_refill : emitsOnly (E := E) P refill.
Proof. unfold refill. emits Hord. Qed.

Lemma emitsOnly_refillDomain (d : string) : emitsOnly (E := E) P (refillDomain d).
Proof. unfold refillDomain. emits Hord. Qed.

Lemma emitsOnly_waitDomain (n : nat) (d : string) : emitsOnly (E := E) P (waitDomain n d).
Proof.
  induction n as [|n IH]; cbn [waitDomain]; unfold delay.
  - emits Hord.
  - pose proof (emitsOnly_refillDomain d). emits Hord.
Qed.

Lemma emitsOnly_waitGlobal (n : nat) : emitsOnly (E := E) P (waitGlobal n).
Proof.
  induction n as [|n IH]; cbn [waitGlobal]; unfold delay.
  - emits Hord.
  - pose proof emitsOnly_refill. emits Hord.
Qed.

Lemma emitsOnly_waitForToken (url : option string) :
  emitsOnly (E := E) P (waitForToken (hostname C) fuel url).
Proof.
  pose proof emitsOnly_refill. pose proof emitsOnly_refillDomain.
  pose proof emitsOnly_waitDomain. pose proof emitsOnly_waitGlobal.
  unfold waitForToken, resolveDomain, acquireDomain, acquireGlobal, takeDomainToken,
    takeGlobalToken.
  emits Hord.
Qed.

Lemma emitsOnly_updateDistrictStatus (id : string) (st : DistrictStatus) (err : option string) :
  emitsOnly (E := E) P (updateDistrictStatus id st err).
Proof. unfold updateDistrictStatus. emits Hord. Qed.

Lemma emitsOnly_updateProgress (runId : string) (f : ScrapeProgress -> ScrapeProgress) :
  emitsOnly (E := E) P (updateProgress runId f).
Proof. unfold updateProgress. emits Hord. Qed.

Lemma emitsOnly_startDistrict (runId : string) (d : District) :
  emitsOnly (E := E) P (startDistrict runId d).
Proof. pose proof emitsOnly_updateProgress. unfold startDistrict. emits Hord. Qed.

Lemma emitsOnly_completeDistrict (runId : string) (d : District) (n : Z) :
  emitsOnly (E := E) P (completeDistrict runId d n).
Proof. pose proof emitsOnly_updateProgress. unfold completeDistrict. emits Hord. Qed.

Lemma emitsOnly_failDistrict (runId : string) (d : District) (err : string) :
  emitsOnly (E := E) P (failDistrict runId d err).
Proof. pose proof emitsOnly_updateProgress. unfold failDistrict. emits Hord. Qed.

Lemma emitsOnly_progressTracker : emitsOnly (E := E) P progressTracker.
Proof. unfold progressTracker. emits Hord. Qed.

Lemma emitsOnly_verifyContacts (contacts : list Contact) :
  emitsOnly P (verifyContacts C contacts).
Proof. unfold verifyContacts. emits Hord. Qed.

Lemma emitsOnly_saveContacts (dc : DistrictContacts) :
  emitsOnly (E := E) P (withRetry (saveDistrictContacts dc) (Some RetryConfigs_database)).
Proof.
  apply emitsOnly_withRetry; try done.
  - unfold saveDistrictContacts. emits Hord.
  - intros level message. by apply Hord.
  - intros ms. by apply Hord.
Qed.

Lemma emitsOnly_acquireContacts (d : District) (domain : option string) :
  P (EvCall "scrapeDistrict" (d_id d)) ->
  emitsOnly P (acquireContacts C d domain).
Proof.
  intros Hscrape. unfold acquireContacts.
  destruct (truthy (d_website d)); [|apply emitsOnly_ret].
  apply emitsOnly_tryCatch.
  - apply emitsOnly_withRetry; try done.
    + by apply emitsOnly_call.
    + intros level message. by apply Hord.
    + intros ms. by apply Hord.
  - intros e. emits Hord.
Qed.

Lemma emitsOnly_pipeline (d : District) (t : Z) :
  P (EvCall "scrapeDistrict" (d_id d)) ->
  emitsOnly P (pipeline C fuel d t).
Proof.
  intros Hscrape.
  pose proof emitsOnly_progressTracker. pose proof emitsOnly_startDistrict.
  pose proof emitsOnly_updateDistrictStatus. pose proof (emitsOnly_waitForToken).
  pose proof (emitsOnly_acquireContacts d) as Hacq.
  pose proof emitsOnly_verifyContacts. pose proof emitsOnly_saveContacts.
  pose proof emitsOnly_completeDistrict.
  unfold pipeline, isDistrictProcessed.
  apply emitsOnly_bind; [done|]. intros runId.
  apply emitsOnly_bind; [emits Hord|]. intros processed.
  destruct processed; [emits Hord|].
  apply emitsOnly_bind; [done|]. intros _.
  apply emitsOnly_bind; [done|]. intros _.
  apply emitsOnly_bind; [done|]. intros _.
  apply emitsOnly_bind; [by apply Hacq|]. intros contacts.
  emits Hord.
Qed.

Lemma emitsOnly_recordFailure (d : District) (e : JsValue) :
  emitsOnly P (recordFailure (E := E) d e).
Proof.
  pose proof emitsOnly_progressTracker. pose proof emitsOnly_failDistrict.
  pose proof emitsOnly_updateDistrictStatus.
  unfold recordFailure. emits Hord.
Qed.

Lemma emitsOnly_processDistrict (d : District) :
  P (EvCall "scrapeDistrict" (d_id d)) ->
  P (EvDistrict "district_start" (d_id d)) ->
  emitsOnly P (processDistrict C fuel d).
Proof.
  intros Hscrape Hstart. unfold processDistrict.
  apply emitsOnly_bind; [emits Hord|]. intros t.
  apply emitsOnly_bind; [by apply emitsOnly_emit|]. intros _.
  apply emitsOnly_tryCatch; [by apply emitsOnly_pipeline|].
  intros e. apply emitsOnly_recordFailure.
Qed.

Lemma emitsOnly_processBatch (ds : list District) :
  Forall (fun d => P (EvCall "scrapeDistrict" (d_id d))
                   /\ P (EvDistrict "district_start" (d_id d))) ds ->
  emitsOnly P (processBatch C fuel ds).
Proof.
  induction 1 as [|d ds [Hs Hd] _ IH]; cbn [processBatch]; [apply emitsOnly_ret|].
  apply emitsOnly_bind; [|done].
  apply emitsOnly_tryCatch; [by apply emitsOnly_processDistrict|].
  intros e. emits Hord.
Qed.

Lemma Forall_slice {A} (Q : A -> Prop) (l : list A) (i j : nat) :
  Forall Q l -> Forall Q (slice l i j).
Proof. intros H. unfold slice. by apply Forall_take, Forall_drop. Qed.

Lemma emitsOnly_batchLoop (n : nat) (ds : list District) :
  Forall (fun d => P (EvCall "scrapeDistrict" (d_id d))
                   /\ P (EvDistrict "district_start" (d_id d))) ds ->
  forall i, emitsOnly P (batchLoop C fuel n ds i).
Proof.
  intros Hds. pose proof emitsOnly_progressTracker.
  induction n as [|n IH]; intros i; cbn [batchLoop].
  - emits Hord.
  - destruct (_ <? _)%nat; [|apply emitsOnly_ret].
    apply emitsOnly_bind; [by apply emitsOnly_processBatch, Forall_slice|]. intros _.
    unfold getProgress. emits Hord.
Qed.

Lemma emitsOnly_initialize : emitsOnly P (initialize C).
Proof. unfold initialize. emits Hord. Qed.

Lemma emitsOnly_cleanup : emitsOnly P (cleanup C).
Proof. unfold cleanup. emits Hord. Qed.

Lemma emitsOnly_exportResults (startTime : Z) : emitsOnly P (exportResults C startTime).
Proof.
  unfold exportResults, getAllDistrictContacts, getProcessingStats. emits Hord.
Qed.

Lemma emitsOnly_completeRun (runId : string) : emitsOnly (E := E) P (completeRun runId).
Proof. pose proof emitsOnly_updateProgress. unfold completeRun. emits Hord. Qed.

Lemma emitsOnly_failRun (runId err : string) : emitsOnly (E := E) P (failRun runId err).
Proof. pose proof emitsOnly_updateProgress. unfold failRun. emits Hord. Qed.

Lemma emitsOnly_initializeRun (runId : string) (n : Z) :
  emitsOnly (E := E) P (initializeRun runId n).
Proof. unfold initializeRun. emits Hord. Qed.

Lemma emitsOnly_loadOrGetDistricts : emitsOnly P (loadOrGetDistricts C).
Proof.
  unfold loadOrGetDistricts, getProcessingStats, saveDistricts, getPendingDistricts.
  emits Hord.
Qed.
End OrdinaryTrace.

(** ** Orchestrator: what a computation keeps of the store *)

Section PersistFacts.
Context {E : Type}.

Lemma docsKept_refl (d : Firestore) : docsKept d d.
Proof. by split. Qed.

Lemma docsKept_trans (d1 d2 d3 : Firestore) : docsKept d1 d2 -> docsKept d2 d3 -> docsKept d1 d3.
Proof. intros [H1 H2] [H3 H4]. split; intros; [apply H3, H1|apply H4, H2]; done. Qed.

Lemma persists_frame {A} (m : M E A) :
  (forall w, tracker (snd (m w)) = tracker w /\ db (snd (m w)) = db w) -> persists m.
Proof. intros H w. destruct (H w) as [-> ->]. split; [done|apply docsKept_refl]. Qed.

Lemma persists_ret {A} (a : A) : persists (E := E) (ret a).
Proof. by apply persists_frame. Qed.

Lemma persists_throw {A} (e : JsValue) : persists (E := E) (throw (A := A) e).
Proof. by apply persists_frame. Qed.

Lemma persists_never {A} : persists (E := E) (never (A := A)).
Proof. by apply persists_frame. Qed.

Lemma persists_bind {A B} (m : M E A) (k : A -> M E B) :
  persists m -> (forall a, persists (k a)) -> persists (bind m k).
Proof.
  intros Hm Hk w. unfold bind. destruct (Hm w) as [Ht Hd].
  destruct (m w) as [[a|e|] w1]; cbn in *; try done.
  destruct (Hk a w1) as [Ht' Hd']. split; [congruence|by eapply docsKept_trans].
Qed.

Lemma persists_tryCatch {A} (body : M E A) (handler : JsValue -> M E A) :
  persists body -> (forall e, persists (handler e)) -> persists (tryCatch body handler).
Proof.
  intros Hm Hk w. unfold tryCatch. destruct (Hm w) as [Ht Hd].
  destruct (body w) as [[a|e|] w1]; cbn in *; try done.
  destruct (Hk e w1) as [Ht' Hd']. split; [congruence|by eapply docsKept_trans].
Qed.

Lemma persists_call {A} (operation argument : string) (b : E -> Outcome A * E) :
  persists (call operation argument b).
Proof. apply persists_frame. intros w. unfold call. by destruct (b (env w)). Qed.

Lemma persists_updateDistrictStatus (id : string) (st : DistrictStatus) (err : option string) :
  persists (E := E) (updateDistrictStatus id st err).
Proof.
  intros w. unfold updateDistrictStatus, bind, dateNow, getDb, putDb. cbn.
  destruct (districts (db w) !! id) as [x|] eqn:Hx; cbn; [|split; [done|apply docsKept_refl]].
  split; [done|]. split; [|done]. intros id' Hsome. cbn.
  destruct (decide (id = id')) as [->|Hne];
    [by rewrite lookup_insert_eq|by rewrite lookup_insert_ne].
Qed.

Lemma persists_updateProgress (runId : string) (f : ScrapeProgress -> ScrapeProgress) :
  persists (E := E) (updateProgress runId f).
Proof.
  intros w. unfold updateProgress, bind, getDb, putDb. cbn.
  destruct (scrape_progress (db w) !! runId) as [x|] eqn:Hx; cbn;
    [|split; [done|apply docsKept_refl]].
  split; [done|]. split; [done|]. intros id' Hsome. cbn.
  destruct (decide (runId = id')) as [->|Hne];
    [by rewrite lookup_insert_eq|by rewrite lookup_insert_ne].
Qed.

Lemma persists_saveDistrictContacts (dc : DistrictContacts) :
  persists (E := E) (saveDistrictContacts dc).
Proof. intros w. cbn. by repeat split. Qed.

Lemma persists_completeDistrict (runId : string) (d : District) (n : Z) :
  persists (E := E) (completeDistrict runId d n).
Proof.
  intros w. unfold completeDistrict, bind at 1 2 3 4, dateNow, getDb, putDb.
  cbn -[updateProgress bind].
  match goal with |- context [bind _ _ ?x] => set (w1 := x) end.
  assert (H1 : tracker w1 = tracker w /\ docsKept (db w) (db w1)) by (by repeat split).
  unfold bind. cbn -[updateProgress].
  match goal with |- context [updateProgress runId ?f w1] =>
    destruct (persists_updateProgress runId f w1) as [Ht Hd] end.
  destruct H1 as [Ht1 Hd1]. split; [congruence|by eapply docsKept_trans].
Qed.

Lemma persists_failDistrict (runId : string) (d : District) (err : string) :
  persists (E := E) (failDistrict runId d err).
Proof.
  intros w. unfold failDistrict, bind at 1 2 3, dateNow, getDb, putDb.
  cbn -[updateProgress].
  match goal with |- context [updateProgress runId ?f ?x] =>
    destruct (persists_updateProgress runId f x) as [Ht Hd] end.
  split; [exact Ht|]. eapply docsKept_trans; [|exact Hd]. by repeat split.
Qed.
End PersistFacts.

Ltac persists_step :=
  first
    [ assumption
    | match goal with H : forall _, persists _ |- _ => apply H end
    | match goal with H : forall _ _, persists _ |- _ => apply H end
    | match goal with H : forall _ _ _, persists _ |- _ => apply H end
    | apply persists_ret | apply persists_throw | apply persists_never
    | apply persists_updateDistrictStatus | apply persists_updateProgress
    | apply persists_saveDistrictContacts
    | apply persists_completeDistrict | apply persists_failDistrict
    | apply persists_call
    | apply persists_bind; [|intros ?]
    | apply persists_tryCatch; [|intros ?]
    | apply persists_frame; intros ?; split; reflexivity
    | match goal with
      | |- persists (match ?x with _ => _ end) => destruct x
      end ].

Ltac persists_tac := repeat persists_step.

Section PersistOrchestrator.
Context {E : Type}.
Variable C : Collaborators E.
Variable fuel : nat.

Lemma persists_retryLoop {T} (fn : M E T) (opts : RequiredRetryOptions E)
    (attempts : list nat) (last : option JsValue) :
  persists fn -> (forall e n, persists (onRetry opts e n)) ->
  persists (retryLoop fn opts attempts last).
Proof.
  intros Hfn Hcb. revert last.
  induction attempts as [|attempt rest IH]; intros last; cbn [retryLoop]; persists_tac.
Qed.

Lemma persists_withRetry {T} (fn : M E T) (options : RetryOptions E) :
  persists fn -> o_onRetry options = None -> persists (withRetry fn (Some options)).
Proof.
  intros Hfn Hcb. unfold withRetry. apply persists_retryLoop; [done|].
  intros e n. cbn. rewrite Hcb. apply persists_ret.
Qed.

Lemma persists_waitDomain (n : nat) (d : string) : persists (E := E) (waitDomain n d).
Proof.
  induction n as [|n IH]; cbn [waitDomain]; unfold delay, refillDomain; persists_tac.
Qed.

Lemma persists_waitGlobal (n : nat) : persists (E := E) (waitGlobal n).
Proof.
  induction n as [|n IH]; cbn [waitGlobal]; unfold delay, refill; persists_tac.
Qed.

Lemma persists_waitForToken (url : option string) :
  persists (E := E) (waitForToken (hostname C) fuel url).
Proof.
  pose proof persists_waitDomain. pose proof persists_waitGlobal.
  unfold waitForToken, resolveDomain, acquireDomain, acquireGlobal, takeDomainToken,
    takeGlobalToken, refill, refillDomain.
  persists_tac.
Qed.

Lemma persists_pipeline (d : District) (t : Z) : persists (pipeline C fuel d t).
Proof.
  pose proof persists_waitForToken.
  assert (Hscrape : persists (acquireContacts C d (extractDomainFromWebsite C (d_website d)))).
  { unfold acquireContacts. destruct (truthy _); [|apply persists_ret].
    apply persists_tryCatch; [|intros e; persists_tac].
    apply persists_withRetry; [apply persists_call|done]. }
  assert (Hsave : forall dc, persists (E := E)
                    (withRetry (saveDistrictContacts dc) (Some RetryConfigs_database))).
  { intros dc. apply persists_withRetry; [apply persists_saveDistrictContacts|done]. }
  unfold pipeline, progressTracker, isDistrictProcessed, startDistrict, verifyContacts.
  persists_tac.
Qed.

Lemma persists_recordFailure (d : District) (e : JsValue) :
  persists (recordFailure (E := E) d e).
Proof. unfold recordFailure, progressTracker. persists_tac. Qed.

Lemma persists_processDistrict (d : District) : persists (processDistrict C fuel d).
Proof.
  pose proof persists_pipeline. pose proof persists_recordFailure.
  unfold processDistrict. persists_tac.
Qed.

Lemma persists_processBatch (ds : list District) : persists (processBatch C fuel ds).
Proof.
  pose proof persists_processDistrict.
  induction ds as [|d ds IH]; cbn [processBatch]; persists_tac.
Qed.
End PersistOrchestrator.

(** ** Orchestrator: failures of single districts *)

Section IsolationFacts.
Context {E : Type}.
Variable C : Collaborators E.
Variable fuel : nat.

Lemma bind_resolved {A B} (m : M E A) (k : A -> M E B) (w : World E) (a : A) (w1 : World E) :
  m w = (Resolved a, w1) -> bind m k w = k a w1.
Proof. intros H. unfold bind. by rewrite H. Qed.

Lemma bind_rejected {A B} (m : M E A) (k : A -> M E B) (w : World E) (e : JsValue)
    (w1 : World E) :
  m w = (Rejected e, w1) -> bind m k w = (Rejected e, w1).
Proof. intros H. unfold bind. by rewrite H. Qed.

Lemma bind_pending {A B} (m : M E A) (k : A -> M E B) (w w1 : World E) :
  m w = (Pending, w1) -> bind m k w = (Pending, w1).
Proof. intros H. unfold bind. by rewrite H. Qed.

Lemma progressTracker_Some (w : World E) (runId : string) :
  tracker w = Some runId -> progressTracker w = (Resolved runId, w).
Proof. intros H. unfold progressTracker, bind, getTracker. by rewrite H. Qed.

Lemma processBatch_no_reject (ds : list District) :
  forall (w : World E) (e : JsValue) (w' : World E),
    processBatch C fuel ds w <> (Rejected e, w').
Proof.
  induction ds as [|d ds IH]; intros w e w'; cbn [processBatch]; [done|].
  unfold bind, tryCatch, emit.
  destruct (processDistrict C fuel d w) as [[[]|err|] w1]; try done; apply IH.
Qed.

Lemma districtStarts_app (l1 l2 : list Event) :
  districtStarts (l1 ++ l2) = districtStarts l1 ++ districtStarts l2.
Proof.
  induction l1 as [|[] l1 IH]; cbn; try done.
  destruct (String.eqb _ _); cbn; by rewrite IH.
Qed.

Lemma districtStarts_ordinary (evs : list Event) :
  Forall (fun ev => districtStarts [ev] = []) evs -> districtStarts evs = [].
Proof.
  induction 1 as [|ev evs Hev _ IH]; [done|].
  change (ev :: evs) with ([ev] ++ evs). by rewrite districtStarts_app, Hev, IH.
Qed.

Lemma processDistrict_starts (d : District) (w : World E) :
  exists evs, trace (snd (processDistrict C fuel d w)) = trace w ++ evs
              /\ districtStarts evs = [d_id d].
Proof.
  unfold processDistrict, bind, dateNow, emit. cbn -[tryCatch].
  set (P := fun ev => districtStarts [ev] = []).
  assert (Hord : forall ev, ordinary ev = true -> P ev).
  { intros [] Hev; try done. unfold P. cbn in *. by destruct (String.eqb _ _). }
  assert (Hrest : emitsOnly P (tryCatch (pipeline C fuel d (clock w)) (recordFailure d))).
  { apply emitsOnly_tryCatch; [by apply emitsOnly_pipeline|].
    intros e. by apply emitsOnly_recordFailure. }
  destruct (Hrest (record w (EvDistrict "district_start" (d_id d)))) as (evs & Htr & Hall).
  exists (EvDistrict "district_start" (d_id d) :: evs). split.
  - rewrite Htr. cbn. by rewrite <- app_assoc.
  - cbn. by rewrite (districtStarts_ordinary evs Hall).
Qed.

Lemma processBatch_starts (ds : list District) :
  forall w : World E,
    exists evs, trace (snd (processBatch C fuel ds w)) = trace w ++ evs
                /\ (fst (processBatch C fuel ds w) = Resolved tt ->
                    districtStarts evs = List.map d_id ds).
Proof.
  induction ds as [|d ds IH]; intros w; cbn [processBatch].
  - exists []. by rewrite app_nil_r.
  - destruct (processDistrict_starts d w) as (evs1 & Htr1 & Hst1).
    unfold bind, tryCatch, emit.
    destruct (processDistrict C fuel d w) as [[[]|err|] w1]; cbn in *.
    + destruct (IH w1) as (evs2 & Htr2 & Hst2). exists (evs1 ++ evs2).
      rewrite Htr2, Htr1, app_assoc. split; [done|]. intros Hres.
      by rewrite districtStarts_app, Hst1, Hst2.
    + destruct (IH (record w1 (EvConsole "Error processing district")))
        as (evs2 & Htr2 & Hst2).
      exists (evs1 ++ EvConsole "Error processing district" :: evs2).
      rewrite Htr2. cbn. rewrite Htr1, <- !app_assoc. split; [done|]. intros Hres.
      rewrite districtStarts_app, Hst1. cbn. by rewrite Hst2.
    + exists evs1. done.
Qed.

Lemma slice_drop {A} (l : list A) (i : nat) :
  slice l i (i + batchSize) ++ drop (i + batchSize) l = drop i l.
Proof.
  unfold slice. replace (i + batchSize - i)%nat with batchSize by lia.
  rewrite <- drop_drop. apply take_drop.
Qed.

Lemma batchLoop_isolated (ds : list District) (runId : string) :
  forall (n i : nat) (w : World E),
    (length ds <= i + n)%nat ->
    tracker w = Some runId ->
    (forall e w', batchLoop C fuel n ds i w <> (Rejected e, w'))
    /\ exists evs, trace (snd (batchLoop C fuel n ds i w)) = trace w ++ evs
                   /\ (fst (batchLoop C fuel n ds i w) = Resolved tt ->
                       districtStarts evs = List.map d_id (drop i ds)).
Proof.
  induction n as [|n IH]; intros i w Hlen Htk; cbn [batchLoop].
  - destruct (Nat.ltb_spec i (length ds)); [lia|]. split; [done|].
    exists []. rewrite app_nil_r. split; [done|]. intros _.
    by rewrite drop_ge.
  - destruct (Nat.ltb_spec i (length ds)) as [Hlt|Hge].
    2:{ split; [done|]. exists []. rewrite app_nil_r. split; [done|]. intros _.
        by rewrite drop_ge. }
    pose proof (processBatch_no_reject (slice ds i (i + batchSize)) w) as Hnr.
    destruct (processBatch_starts (slice ds i (i + batchSize)) w) as (evs1 & Htr1 & Hst1).
    destruct (persists_processBatch C fuel (slice ds i (i + batchSize)) w) as [Htk1 _].
    destruct (processBatch C fuel (slice ds i (i + batchSize)) w) as [[[]|err|] w1] eqn:Hpb;
      cbn [fst snd] in *.
    + rewrite (bind_resolved _ _ _ _ _ Hpb).
      rewrite (bind_resolved _ _ _ _ _ (progressTracker_Some w1 runId ltac:(congruence))).
      erewrite bind_resolved by reflexivity.
      set (note := match scrape_progress (db w1) !! runId with
                   | Some _ => emit (EvLog LvInfo "Progress")
                   | None => ret tt
                   end).
      assert (Hnote : exists w2 evs2, note w1 = (Resolved tt, w2)
                        /\ trace w2 = trace w1 ++ evs2 /\ districtStarts evs2 = []
                        /\ tracker w2 = tracker w1).
      { subst note. destruct (scrape_progress (db w1) !! runId).
        - eexists _, [_]. split; [reflexivity|]. done.
        - exists w1, []. rewrite app_nil_r. done. }
      destruct Hnote as (w2 & evs2 & Hn & Htr2 & Hst2 & Htk2).
      rewrite (bind_resolved _ _ _ _ _ Hn).
      set (pause := if (i + batchSize <? length ds)%nat
                    then bind (emit (EvLog LvDebug "Pausing between batches..."))
                           (fun _ => sleep 5000)
                    else ret tt).
      assert (Hpause : exists w3 evs3, pause w2 = (Resolved tt, w3)
                        /\ trace w3 = trace w2 ++ evs3 /\ districtStarts evs3 = []
                        /\ tracker w3 = tracker w2).
      { subst pause. destruct (_ <? _)%nat.
        - eexists _, [_; _]. split; [reflexivity|]. cbn. by rewrite <- app_assoc.
        - exists w2, []. rewrite app_nil_r. done. }
      destruct Hpause as (w3 & evs3 & Hp & Htr3 & Hst3 & Htk3).
      rewrite (bind_resolved _ _ _ _ _ Hp).
      destruct (IH (i + batchSize)%nat w3) as (Hnr' & evs4 & Htr4 & Hst4).
      { unfold batchSize. lia. }
      { congruence. }
      split; [exact Hnr'|].
      exists (evs1 ++ evs2 ++ evs3 ++ evs4).
      rewrite Htr4, Htr3, Htr2, Htr1, <- !app_assoc. split; [done|].
      intros Hres. specialize (Hst1 eq_refl). specialize (Hst4 Hres).
      rewrite !districtStarts_app, Hst1, Hst2, Hst3, Hst4.
      cbn. rewrite <- map_app, slice_drop. done.
    + by destruct (Hnr err w1).
    + rewrite (bind_pending _ _ _ _ Hpb). cbn. split; [by intros ? ? [=]|]. exists evs1.
      split; [done|]. intros [=].
Qed.

Lemma arrayUnion_In (l : list ErrorEntry) (entry : ErrorEntry) : In entry (arrayUnion l entry).
Proof.
  unfold arrayUnion. destruct (decide (entry ∈ l)) as [Hin|_].
  - by apply list_elem_of_In.
  - apply in_or_app. right. by left.
Qed.

Lemma recordFailure_spec (d : District) (e : JsValue) (w1 : World E) (runId : string)
    (p1 : ScrapeProgress) (x1 : District) :
  tracker w1 = Some runId ->
  progressOf runId w1 = Some p1 ->
  districts (db w1) !! d_id d = Some x1 ->
  exists w2 x2 l p2 entry,
    recordFailure d e w1 = (Resolved tt, w2)
    /\ districts (db w2) !! d_id d = Some x2
    /\ d_status x2 = StFailed
    /\ (errorMessageOrString e <> ""%string -> d_error x2 = Some (errorMessageOrString e))
    /\ In l (district_logs (db w2))
    /\ dl_districtId l = d_id d /\ dl_runId l = runId /\ dl_status l = LogFailed
    /\ dl_error l = Some (errorMessageOrString e)
    /\ progressOf runId w2 = Some p2
    /\ stats p2 = bumpStats (stats p1) 0 (-1) 0 1
    /\ In entry (errors p2)
    /\ ee_districtId entry = d_id d /\ ee_error entry = errorMessageOrString e.
Proof.
  intros Htk Hp Hx. unfold progressOf in *.
  unfold recordFailure, bind, emit, progressTracker, getTracker, failDistrict, dateNow,
    getDb, putDb, updateProgress, updateDistrictStatus.
  cbn. rewrite Htk. cbn. rewrite Hp. cbn. rewrite Hx. cbn.
  eexists _, _, _, _, _. split; [reflexivity|]. cbn.
  rewrite !lookup_insert_eq.
  split; [reflexivity|]. split; [reflexivity|]. split.
  { cbn. intros Hne. destruct (String.eqb_spec (errorMessageOrString e) ""); done. }
  split; [apply in_or_app; right; by left|].
  repeat (split; [reflexivity|]).
  split; [apply arrayUnion_In|]. done.
Qed.

Lemma processDistrict_records_failure (d : District) (w : World E) (runId : string)
    (e : JsValue) (w1 : World E) :
  tracker w = Some runId ->
  is_Some (progressOf runId w) ->
  is_Some (districts (db w) !! d_id d) ->
  pipeline C fuel d (clock w) (record w (EvDistrict "district_start" (d_id d)))
  = (Rejected e, w1) ->
  exists w2 x2 l p2 entry,
    processDistrict C fuel d w = (Resolved tt, w2)
    /\ districts (db w2) !! d_id d = Some x2
    /\ d_status x2 = StFailed
    /\ (errorMessageOrString e <> ""%string -> d_error x2 = Some (errorMessageOrString e))
    /\ In l (district_logs (db w2))
    /\ dl_districtId l = d_id d /\ dl_runId l = runId /\ dl_status l = LogFailed
    /\ dl_error l = Some (errorMessageOrString e)
    /\ progressOf runId w2 = Some p2
    /\ In entry (errors p2)
    /\ ee_districtId entry = d_id d /\ ee_error entry = errorMessageOrString e.
Proof.
  intros Htk Hp Hx Hfail.
  destruct (persists_pipeline C fuel d (clock w)
              (record w (EvDistrict "district_start" (d_id d)))) as [Htk1 [Hd1 Hp1]].
  rewrite Hfail in Htk1, Hd1, Hp1. cbn in Htk1, Hd1, Hp1.
  destruct (Hp1 runId Hp) as [p1 Hp1'].
  destruct (Hd1 (d_id d) Hx) as [x1 Hx1].
  destruct (recordFailure_spec d e w1 runId p1 x1) as
    (w2 & x2 & l & p2 & entry & Hrec & H1 & H2 & H3 & H4 & H5 & H6 & H7 & H8 & H9 & _ & H10 & H11);
    [congruence|done|done|].
  exists w2, x2, l, p2, entry.
  split; [|done].
  unfold processDistrict, bind, dateNow, emit, tryCatch. cbn. by rewrite Hfail.
Qed.
End IsolationFacts.

(** ** Orchestrator: what settles *)

Section SettleFacts.
Context {E : Type}.

Lemma settles_frame {A} (m : M E A) :
  (forall w, fst (m w) <> Pending /\ limiter (snd (m w)) = limiter w) -> settles m.
Proof. intros H w Hs. destruct (H w) as [? ->]. done. Qed.

Lemma settles_ret {A} (a : A) : settles (E := E) (ret a).
Proof. by apply settles_frame. Qed.

Lemma settles_throw {A} (e : JsValue) : settles (E := E) (throw (A := A) e).
Proof. by apply settles_frame. Qed.

Lemma settles_bind {A B} (m : M E A) (k : A -> M E B) :
  settles m -> (forall a, settles (k a)) -> settles (bind m k).
Proof.
  intros Hm Hk w Hs. unfold bind. destruct (Hm w Hs) as [Hne Hs1].
  destruct (m w) as [[a|e|] w1]; cbn in *; [by apply Hk|done|done].
Qed.

Lemma settles_tryCatch {A} (body : M E A) (handler : JsValue -> M E A) :
  settles body -> (forall e, settles (handler e)) -> settles (tryCatch body handler).
Proof.
  intros Hm Hk w Hs. unfold tryCatch. destruct (Hm w Hs) as [Hne Hs1].
  destruct (body w) as [[a|e|] w1]; cbn in *; [done|by apply Hk|done].
Qed.

Lemma settles_call {A} (operation argument : string) (b : E -> Outcome A * E) :
  (forall e, fst (b e) <> Pending) -> settles (call operation argument b).
Proof.
  intros Hb. apply settles_frame. intros w. unfold call. specialize (Hb (env w)).
  by destruct (b (env w)).
Qed.

Lemma settles_retryLoop {T} (fn : M E T) (opts : RequiredRetryOptions E)
    (attempts : list nat) (last : option JsValue) :
  settles fn -> (forall e n, settles (onRetry opts e n)) ->
  settles (retryLoop fn opts attempts last).
Proof.
  intros Hfn Hcb. revert last.
  induction attempts as [|attempt rest IH]; intros last; cbn [retryLoop].
  - apply settles_throw.
  - apply settles_tryCatch; [done|]. intros e.
    destruct (negb _); [apply settles_throw|].
    destruct (_ =? _)%nat.
    + apply settles_bind; [by apply settles_frame|]. intros _. apply settles_throw.
    + apply settles_bind; [by apply settles_frame|]. intros _.
      apply settles_bind; [apply Hcb|]. intros _.
      apply settles_bind; [by apply settles_frame|]. intros _. apply IH.
Qed.

Lemma settles_withRetry {T} (fn : M E T) (options : RetryOptions E) :
  settles fn -> o_onRetry options = None -> settles (withRetry fn (Some options)).
Proof.
  intros Hfn Hcb. unfold withRetry. apply settles_retryLoop; [done|].
  intros e n. cbn. rewrite Hcb. apply settles_ret.
Qed.

Lemma sane_setGlobal (rl : RateLimiter) (t : Q) (last : Z) : sane rl -> sane (setGlobal rl t last).
Proof. done. Qed.

Lemma sane_setBucket (rl : RateLimiter) (d : string) (b : Bucket) :
  sane rl -> sane (setBucket rl d b).
Proof. done. Qed.

Lemma keeps_sane_refill : keeps (E := E) sane refill.
Proof. intros w Hw. exact Hw. Qed.

Lemma keeps_sane_refillDomain (d : string) : keeps (E := E) sane (refillDomain d).
Proof.
  intros w Hw. unfold refillDomain, bind, getLimiter. cbn.
  by destruct (domainBuckets (limiter w) !! d).
Qed.

Lemma keeps_sane_waitDomain (n : nat) (d : string) : keeps (E := E) sane (waitDomain n d).
Proof.
  induction n as [|n IH]; cbn [waitDomain];
    (apply keeps_bind; [apply keeps_getLimiter|]); intros rl;
    destruct (domainBuckets rl !! d) as [b|]; try apply keeps_throw;
    destruct (belowOne (b_tokens b)); try apply keeps_ret; try apply keeps_never.
  apply keeps_bind; [apply keeps_delay|]. intros _.
  apply keeps_bind; [apply keeps_sane_refillDomain|]. intros _. exact IH.
Qed.

Lemma keeps_sane_waitGlobal (n : nat) : keeps (E := E) sane (waitGlobal n).
Proof.
  induction n as [|n IH]; cbn [waitGlobal];
    (apply keeps_bind; [apply keeps_getLimiter|]); intros rl;
    destruct (belowOne (tokens rl)); try apply keeps_ret; try apply keeps_never.
  apply keeps_bind; [apply keeps_delay|]. intros _.
  apply keeps_bind; [apply keeps_sane_refill|]. intros _. exact IH.
Qed.

Lemma keeps_sane_waitForToken (hostname : string -> option string) (n : nat)
    (url : option string) :
  keeps (E := E) sane (waitForToken hostname n url).
Proof.
  unfold waitForToken. apply keeps_bind.
  { intros w Hw. unfold resolveDomain.
    destruct url as [u|]; [|done]. destruct (String.eqb u ""); [done|].
    destruct (hostname u) as [d|]; [|done].
    unfold bind, getLimiter. cbn. by destruct (domainBuckets (limiter w) !! d). }
  intros domain. apply keeps_bind.
  - unfold acquireDomain. destruct domain as [d|]; [|by apply keeps_frame].
    destruct (String.eqb d ""); [by apply keeps_frame|].
    apply keeps_bind; [apply keeps_sane_refillDomain|]. intros _.
    apply keeps_bind; [apply keeps_sane_waitDomain|]. intros _.
    intros w Hw. unfold takeDomainToken, bind, getLimiter. cbn.
    by destruct (domainBuckets (limiter w) !! d).
  - intros _. unfold acquireGlobal.
    apply keeps_bind; [apply keeps_sane_refill|]. intros _.
    apply keeps_bind; [apply keeps_sane_waitGlobal|]. intros _.
    intros w Hw. exact Hw.
Qed.

Lemma settles_waitForToken (hostname : string -> option string) (n : nat)
    (url : option string) :
  settles (E := E) (waitForToken hostname (S n) url).
Proof.
  intros w Hw. split; [|by apply keeps_sane_waitForToken].
  destruct Hw as [Hcap Hrate].
  destruct (waitForToken_terminates hostname n url w Hcap Hrate) as (w' & ->). done.
Qed.
End SettleFacts.

Ltac settles_step :=
  first
    [ assumption
    | match goal with H : forall _, settles _ |- _ => apply H end
    | match goal with H : forall _ _, settles _ |- _ => apply H end
    | apply settles_ret | apply settles_throw
    | apply settles_bind; [|intros ?]
    | apply settles_tryCatch; [|intros ?]
    | apply settles_frame; intros ?; split; [discriminate|reflexivity]
    | match goal with
      | |- settles (match ?x with _ => _ end) => destruct x
      end ].

Ltac settles_tac := repeat settles_step.

Section SettleOrchestrator.
Context {E : Type}.
Variable C : Collaborators E.
Variable fuel : nat.
Hypothesis stages : stagesSettle C.

Lemma settles_updateDistrictStatus (id : string) (st : DistrictStatus) (err : option string) :
  settles (E := E) (updateDistrictStatus id st err).
Proof.
  apply settles_frame. intros w. unfold updateDistrictStatus, bind, dateNow, getDb. cbn.
  by destruct (districts (db w) !! id).
Qed.

Lemma settles_updateProgress (runId : string) (f : ScrapeProgress -> ScrapeProgress) :
  settles (E := E) (updateProgress runId f).
Proof.
  apply settles_frame. intros w. unfold updateProgress, bind, getDb. cbn.
  by destruct (scrape_progress (db w) !! runId).
Qed.

Lemma settles_pipeline (d : District) (t : Z) : settles (pipeline C (S fuel) d t).
Proof.
  destruct stages as (Hscrape & Hcde & Hverify & Hgrey).
  pose proof settles_updateDistrictStatus. pose proof settles_updateProgress.
  pose proof (settles_waitForToken (E := E) (hostname C) fuel).
  assert (Hacq : settles (acquireContacts C d (extractDomainFromWebsite C (d_website d)))).
  { unfold acquireContacts. destruct (truthy _); [|apply settles_ret].
    apply settles_tryCatch; [|intros e; settles_tac].
    apply settles_withRetry; [by apply settles_call|done]. }
  assert (Hsave : forall dc, settles (E := E)
                    (withRetry (saveDistrictContacts dc) (Some RetryConfigs_database))).
  { intros dc. apply settles_withRetry; [by apply settles_frame|done]. }
  assert (Hcdes : settles (call "loadDistrictContacts" "" (cde_loadDistrictContacts C)))
    by (by apply settles_call).
  assert (Hv : forall emails, settles (call "verifyBatch" "" (verifier_verifyBatch C emails)))
    by (intros; by apply settles_call).
  assert (Hg : forall emails,
             settles (call "retryGreylisted" "" (verifier_retryGreylisted C emails)))
    by (intros; by apply settles_call).
  unfold pipeline, progressTracker, isDistrictProcessed, startDistrict, verifyContacts,
    completeDistrict.
  settles_tac.
Qed.

Lemma settles_recordFailure (d : District) (e : JsValue) :
  settles (recordFailure (E := E) d e).
Proof.
  pose proof settles_updateDistrictStatus. pose proof settles_updateProgress.
  unfold recordFailure, progressTracker, failDistrict. settles_tac.
Qed.

Lemma settles_processDistrict (d : District) : settles (processDistrict C (S fuel) d).
Proof.
  pose proof settles_pipeline. pose proof settles_recordFailure.
  unfold processDistrict. settles_tac.
Qed.

Lemma settles_processBatch (ds : list District) : settles (processBatch C (S fuel) ds).
Proof.
  pose proof settles_processDistrict.
  induction ds as [|d ds IH]; cbn [processBatch]; settles_tac.
Qed.

Lemma processBatch_resolves (ds : list District) (w : World E) :
  sane (limiter w) ->
  exists w', processBatch C (S fuel) ds w = (Resolved tt, w').
Proof.
  intros Hs. destruct (settles_processBatch ds w Hs) as [Hne _].
  pose proof (processBatch_no_reject C (S fuel) ds w) as Hnr.
  destruct (processBatch C (S fuel) ds w) as [[[]|e|] w']; [by exists w'| |done].
  by destruct (Hnr e w').
Qed.
End SettleOrchestrator.

Section BatchTotal.
Context {E : Type}.
Variable C : Collaborators E.
Variable fuel : nat.
Hypothesis stages : stagesSettle C.

Lemma batchLoop_resolves (ds : list District) (runId : string) :
  forall (n i : nat) (w : World E),
    (length ds <= i + n)%nat ->
    tracker w = Some runId ->
    sane (limiter w) ->
    exists w', batchLoop C (S fuel) n ds i w = (Resolved tt, w').
Proof.
  induction n as [|n IH]; intros i w Hlen Htk Hs; cbn [batchLoop].
  - destruct (Nat.ltb_spec i (length ds)); [lia|]. by eexists.
  - destruct (Nat.ltb_spec i (length ds)) as [Hlt|Hge]; [|by eexists].
    destruct (processBatch_resolves C fuel stages (slice ds i (i + batchSize)) w Hs)
      as (w1 & Hpb).
    destruct (persists_processBatch C (S fuel) (slice ds i (i + batchSize)) w) as [Htk1 _].
    destruct (settles_processBatch C fuel stages (slice ds i (i + batchSize)) w Hs)
      as [_ Hs1].
    rewrite Hpb in Htk1, Hs1. cbn [snd] in *.
    rewrite (bind_resolved _ _ _ _ _ Hpb).
    rewrite (bind_resolved _ _ _ _ _ (progressTracker_Some w1 runId ltac:(congruence))).
    erewrite bind_resolved by reflexivity.
    set (note := match scrape_progress (db w1) !! runId with
                 | Some _ => emit (EvLog LvInfo "Progress")
                 | None => ret tt
                 end).
    assert (Hnote : exists w2, note w1 = (Resolved tt, w2)
                      /\ tracker w2 = tracker w1 /\ limiter w2 = limiter w1).
    { subst note. destruct (scrape_progress (db w1) !! runId); by eexists. }
    destruct Hnote as (w2 & Hn & Htk2 & Hl2).
    rewrite (bind_resolved _ _ _ _ _ Hn).
    set (pause := if (i + batchSize <? length ds)%nat
                  then bind (emit (EvLog LvDebug "Pausing between batches..."))
                         (fun _ => sleep 5000)
                  else ret tt).
    assert (Hpause : exists w3, pause w2 = (Resolved tt, w3)
                      /\ tracker w3 = tracker w2 /\ limiter w3 = limiter w2).
    { subst pause. destruct (_ <? _)%nat; by eexists. }
    destruct Hpause as (w3 & Hp & Htk3 & Hl3).
    rewrite (bind_resolved _ _ _ _ _ Hp).
    apply IH; [unfold batchSize; lia|congruence|by rewrite Hl3, Hl2].
Qed.
End BatchTotal.

(** C6 -- Per-item failure isolation.  No exception leaves [processBatch]
    or the loop over the batches; when they return, every item of the batch,
    and every item of every batch, has been started, in order, whatever
    happened to the items before it; they do return when the stages settle
    and the limiter can refill; and an item whose pipeline raises [e] ends
    with [processDistrict] returning normally and the item recorded as
    failed with the message of [e]: in its district document, in a failed
    log entry of the run, and in the errors of the progress document. *)
Theorem per_item_failure_isolation :
  forall (E : Type) (C : Collaborators E) (fuel : nat),
    (* no exception of an item leaves the batch or the batch loop *)
    (forall (ds : list District) (w : World E) (e : JsValue) (w' : World E),
        processBatch C fuel ds w <> (Rejected e, w'))
    /\ (forall (ds : list District) (w : World E) (runId : string) (e : JsValue) (w' : World E),
          tracker w = Some runId ->
          batchLoop C fuel (length ds) ds 0 w <> (Rejected e, w'))
    (* a batch, and the loop over the batches, that return have started every item *)
    /\ (forall (ds : list District) (w : World E),
          exists evs, trace (snd (processBatch C fuel ds w)) = trace w ++ evs
                      /\ (fst (processBatch C fuel ds w) = Resolved tt ->
                          districtStarts evs = List.map d_id ds))
    /\ (forall (ds : list District) (w : World E) (runId : string),
          tracker w = Some runId ->
          exists evs, trace (snd (batchLoop C fuel (length ds) ds 0 w)) = trace w ++ evs
                      /\ (fst (batchLoop C fuel (length ds) ds 0 w) = Resolved tt ->
                          districtStarts evs = List.map d_id ds))
    (* and they do return when the stages settle and the limiter refills *)
    /\ (forall (ds : list District) (w : World E) (runId : string),
          stagesSettle C -> (1 <= fuel)%nat -> sane (limiter w) -> tracker w = Some runId ->
          (exists w', processBatch C fuel ds w = (Resolved tt, w'))
          /\ (exists w', batchLoop C fuel (length ds) ds 0 w = (Resolved tt, w')))
    (* an item whose pipeline raises is recorded as failed, with the message *)
    /\ (forall (d : District) (w : World E) (runId : string) (e : JsValue) (w1 : World E),
          tracker w = Some runId ->
          is_Some (progressOf runId w) ->
          is_Some (districts (db w) !! d_id d) ->
          pipeline C fuel d (clock w) (record w (EvDistrict "district_start" (d_id d)))
          = (Rejected e, w1) ->
          exists w2 x2 l p2 entry,
            processDistrict C fuel d w = (Resolved tt, w2)
            /\ districts (db w2) !! d_id d = Some x2
            /\ d_status x2 = StFailed
            /\ (errorMessageOrString e <> ""%string ->
                d_error x2 = Some (errorMessageOrString e))
            /\ In l (district_logs (db w2))
            /\ dl_districtId l = d_id d /\ dl_runId l = runId /\ dl_status l = LogFailed
            /\ dl_error l = Some (errorMessageOrString e)
            /\ progressOf runId w2 = Some p2
            /\ In entry (errors p2)
            /\ ee_districtId entry = d_id d /\ ee_error entry = errorMessageOrString e).
Proof.
  intros E C fuel. split; [|split; [|split; [|split; [|split]]]].
  - apply processBatch_no_reject.
  - intros ds w runId e w' Htk.
    destruct (batchLoop_isolated C fuel ds runId (length ds) 0 w) as [Hnr _]; [lia|done|].
    apply Hnr.
  - apply processBatch_starts.
  - intros ds w runId Htk.
    destruct (batchLoop_isolated C fuel ds runId (length ds) 0 w) as [_ Hst]; [lia|done|].
    exact Hst.
  - intros ds w runId Hstages Hfuel Hs Htk. destruct fuel as [|n]; [lia|]. split.
    + by apply processBatch_resolves.
    + apply (batchLoop_resolves C n Hstages ds runId); [lia|done|done].
  - intros d w runId e w1. apply processDistrict_records_failure.
Qed.

Lemma sampleCollaborators_settle : stagesSettle sampleCollaborators.
Proof.
  repeat split; try done.
  intros d e. cbn. unfold sampleScrape. cbn.
  destruct (String.eqb _ _); [done|]. by destruct (String.eqb _ _).
Qed.

Lemma per_item_failure_isolation_witness :
  (exists w', processBatch sampleCollaborators 1 [brokenDistrict; fineDistrict] batchWorld
              = (Resolved tt, w'))
  /\ exists w2 x2 l p2 entry,
       processDistrict sampleCollaborators 1 brokenDistrict batchWorld = (Resolved tt, w2)
       /\ districts (db w2) !! "broken"%string = Some x2
       /\ d_status x2 = StFailed
       /\ ("Navigation failed"%string <> ""%string -> d_error x2 = Some "Navigation failed"%string)
       /\ In l (district_logs (db w2))
       /\ dl_districtId l = "broken"%string /\ dl_runId l = "run_new"%string
       /\ dl_status l = LogFailed
       /\ dl_error l = Some "Navigation failed"%string
       /\ progressOf "run_new" w2 = Some p2
       /\ In entry (errors p2)
       /\ ee_districtId entry = "broken"%string /\ ee_error entry = "Navigation failed"%string.
Proof.
  destruct (per_item_failure_isolation nat sampleCollaborators 1)
    as (_ & _ & _ & _ & Hreturns & Hrecorded).
  split.
  - destruct (Hreturns [brokenDistrict; fineDistrict] batchWorld "run_new"%string)
      as [Hbatch _]; [apply sampleCollaborators_settle|lia|split; by vm_compute|reflexivity|].
    exact Hbatch.
  - apply (Hrecorded brokenDistrict batchWorld "run_new"%string (newError "Navigation failed")
             (snd (pipeline sampleCollaborators 1 brokenDistrict (clock batchWorld)
                     (record batchWorld (EvDistrict "district_start" "broken"))))).
    + reflexivity.
    + by eexists.
    + by eexists.
    + vm_compute. reflexivity.
Defined.

(** ** Orchestrator: the blocked condition *)

Section FallbackFacts.
Context {E : Type}.
Variable C : Collaborators E.

Lemma withRetry_first_success {T} (fn : M E T) (options : option (RetryOptions E))
    (w : World E) (a : T) (w' : World E) :
  fn w = (Resolved a, w') -> withRetry fn options w = (Resolved a, w').
Proof. intros H. unfold withRetry. cbn [seq retryLoop]. unfold tryCatch. by rewrite H. Qed.

Lemma network_retries_everything (e : JsValue) :
  isRetryableError e (retryableErrors (mergeOptions (E := E) (Some RetryConfigs_network)))
  = true.
Proof.
  cbn. unfold isRetryableError. cbn [length Nat.ltb Nat.leb andb].
  destruct e; [by destruct (_ || _)|done].
Qed.

(** Six failed attempts, the last of them blocked: the fallback. *)
Lemma acquireContacts_fallback (d : District) (domain : option string)
    (errs : nat -> JsValue) (w : World E) :
  truthy (d_website d) = true ->
  (forall i, (i < 6)%nat ->
     fst (scraper_scrapeDistrict C d (afterCalls (scraper_scrapeDistrict C d) i (env w)))
     = Rejected (errs i)) ->
  messageOf (errs 5%nat) = Some "CAPTCHA_DETECTED"%string ->
  exists w' evs,
    acquireContacts C d domain w = (Resolved (fallbackContacts domain), w')
    /\ trace w' = trace w ++ evs
    /\ invocationsOf "scrapeDistrict" evs = 6%nat
    /\ sleepsOf evs
       = List.map (backoffDelay (mergeOptions (E := E) (Some RetryConfigs_network))) (seq 0 5)
    /\ env w' = afterCalls (scraper_scrapeDistrict C d) 6 (env w)
    /\ db w' = db w /\ limiter w' = limiter w /\ tracker w' = tracker w.
Proof.
  intros Hsite Hfail Hblocked. unfold acquireContacts. rewrite Hsite.
  destruct (withRetry_exhausts "scrapeDistrict" (d_id d) (scraper_scrapeDistrict C d)
              RetryConfigs_network 5 6 errs w)
    as (w1 & Hrun & Henv & Htr & Hck & Hdb & Hlim & Htk); [done|done| |lia|].
  { intros i Hi. split; [by apply Hfail|apply network_retries_everything]. }
  unfold tryCatch. rewrite Hrun. rewrite Hblocked.
  rewrite bool_decide_eq_true_2 by done.
  unfold bind, emit. cbn -[retryEvents].
  assert (Hres : forall w2 : World E,
             (match domain with
              | Some dom => if String.eqb dom "" then ret []
                            else ret (List.map departmentContact (generateDepartmentEmails dom))
              | None => ret []
              end) w2 = (Resolved (fallbackContacts domain), w2)).
  { intros w2. unfold fallbackContacts. destruct domain as [dom|]; [|done].
    by destruct (String.eqb dom ""). }
  rewrite Hres. eexists _, _. split; [reflexivity|]. cbn -[retryEvents].
  rewrite Htr, <- !app_assoc. split; [reflexivity|].
  split; [|split; [|done]].
  - rewrite !invocationsOf_app, invocationsOf_retryEvents. reflexivity.
  - rewrite sleepsOf_app, sleepsOf_retryEvents. cbn [sleepsOf]. by rewrite app_nil_r.
Qed.

Lemma isDistrictProcessed_false (runId id : string) (w : World E) :
  (forall l, In l (district_logs (db w)) ->
             dl_runId l = runId -> dl_districtId l = id -> dl_status l <> LogSuccess) ->
  isDistrictProcessed runId id w = (Resolved false, w).
Proof.
  intros Hnone. unfold isDistrictProcessed, bind, getDb, ret.
  replace (List.filter _ (district_logs (db w))) with (@nil DistrictLog); [done|].
  symmetry. induction (district_logs (db w)) as [|l ls IH]; [done|]. cbn.
  destruct (isSuccessOf runId l && String.eqb (dl_districtId l) id) eqn:Hl.
  - apply andb_true_iff in Hl as [Hs Hid]. apply isSuccessOf_spec in Hs as [Hr Hst].
    apply String.eqb_eq in Hid. exfalso. by apply (Hnone l (or_introl eq_refl)).
  - apply IH. intros l' Hin. apply Hnone. by right.
Qed.

Lemma sameButBuckets_waitForToken (fuel : nat) (url : option string) (w : World E) :
  sameButBuckets w (snd (waitForToken (hostname C) fuel url w)).
Proof.
  unfold waitForToken, bind.
  destruct (resolveDomain_spec (hostname C) url w) as (dom & w0 & Hres & _ & _ & Hdom).
  rewrite Hres.
  assert (H0 : sameButBuckets w w0).
  { destruct dom as [d|]; [by destruct Hdom as ((? & _) & _)|].
    destruct Hdom as [-> _]. apply sameButBuckets_refl. }
  assert (H1 : sameButBuckets w0 (snd (acquireDomain fuel dom w0))).
  { destruct dom as [d|]; [|apply sameButBuckets_refl].
    destruct (String.eqb_spec d "") as [->|Hne]; [apply sameButBuckets_refl|].
    destruct Hdom as (_ & (b & Hb) & _).
    destruct (acquireDomain_spec fuel d w0 b Hne Hb) as (r & w1 & -> & (Hs & _) & _).
    exact Hs. }
  destruct (acquireDomain fuel dom w0) as [[[]|e|] w1]; cbn [snd] in *;
    try by eapply sameButBuckets_trans.
  destruct (acquireGlobal_spec fuel w1) as (r & w2 & -> & (Hs & _) & _). cbn.
  eapply sameButBuckets_trans; [|exact Hs]. by eapply sameButBuckets_trans.
Qed.

Lemma scrapes_ordinary (evs : list Event) :
  Forall (fun ev => invocationsOf "scrapeDistrict" [ev] = 0%nat) evs ->
  invocationsOf "scrapeDistrict" evs = 0%nat.
Proof.
  induction 1 as [|ev evs Hev _ IH]; [done|].
  change (ev :: evs) with ([ev] ++ evs). by rewrite invocationsOf_app, Hev, IH.
Qed.

Lemma ordinary_no_scrape (ev : Event) :
  ordinary ev = true -> invocationsOf "scrapeDistrict" [ev] = 0%nat.
Proof.
  destruct ev; try done. unfold invocationsOf. cbn. by destruct (String.eqb _ _).
Qed.

(** Under a verifier that answers, verification changes neither the
    address nor the confidence of a contact. *)
Lemma verifyContacts_spec (contacts : list Contact) (w : World E) :
  (forall emails e, exists r, fst (verifier_verifyBatch C emails e) = Resolved r) ->
  (forall emails e, exists r, fst (verifier_retryGreylisted C emails e) = Resolved r) ->
  exists f w' evs,
    verifyContacts C contacts w = (Resolved (List.map f contacts), w')
    /\ (forall c, email (f c) = email c /\ confidence (f c) = confidence c)
    /\ trace w' = trace w ++ evs /\ invocationsOf "scrapeDistrict" evs = 0%nat
    /\ db w' = db w /\ limiter w' = limiter w /\ tracker w' = tracker w.
Proof.
  intros Hverify Hgrey.
  assert (Hkeep : forall r c, email (applyResults r c) = email c
                              /\ confidence (applyResults r c) = confidence c).
  { intros r c. unfold applyResults. destruct (email c) as [a|] eqn:Ha; [|done].
    destruct (negb _); [|by rewrite Ha]. destruct (mapGet r a); [done|by rewrite Ha]. }
  unfold verifyContacts.
  set (emailsToVerify := List.map _ (List.filter _ contacts)).
  destruct (0 <? length emailsToVerify)%nat.
  2:{ exists (fun c => c), w, []. rewrite map_id, app_nil_r. done. }
  unfold bind at 1. unfold call at 1.
  destruct (Hverify emailsToVerify (env w)) as [r1 Hr1].
  destruct (verifier_verifyBatch C emailsToVerify (env w)) as [o1 e1]. cbn in Hr1. subst o1.
  set (grey := List.map fst (List.filter _ r1)).
  destruct (0 <? length grey)%nat.
  2:{ eexists (applyResults r1), _, [_]. split; [reflexivity|]. split; [apply Hkeep|]. done. }
  unfold bind, call. cbn.
  destruct (Hgrey grey e1) as [r2 Hr2].
  destruct (verifier_retryGreylisted C grey e1) as [o2 e2]. cbn in Hr2. subst o2.
  exists (fun c => applyResults r2 (applyResults r1 c)). eexists _, [_; _].
  split; [by rewrite List.map_map|]. split.
  - intros c. destruct (Hkeep r2 (applyResults r1 c)) as [-> ->]. apply Hkeep.
  - cbn. rewrite <- app_assoc. done.
Qed.

Lemma generateMissing_keeps (domain : option string) (contacts : list Contact) (c : Contact) :
  truthy (email c) = true -> In c contacts -> In c (generateMissing C domain contacts).
Proof.
  intros Hc Hin. unfold generateMissing. destruct domain as [dom|]; [|done].
  destruct (_ && _); [|done].
  apply in_map_iff. exists c. split; [|done].
  unfold generateFor. by rewrite Hc.
Qed.

Lemma fallbackContacts_spec (domain : option string) (c : Contact) :
  In c (fallbackContacts domain) -> truthy (email c) = true /\ confidence c = Some 60%Z.
Proof.
  unfold fallbackContacts. destruct domain as [dom|]; [|done].
  destruct (String.eqb dom ""); [done|].
  intros Hin. apply in_map_iff in Hin as (address & <- & Hin).
  split; [|done]. unfold generateDepartmentEmails in Hin.
  apply in_map_iff in Hin as (dept & <- & Hin). cbn.
  assert (Hdept : dept <> ""%string).
  { intros ->. cbn in Hin. repeat (destruct Hin as [Hin|Hin]; [discriminate|]). done. }
  destruct dept; [done|]. reflexivity.
Qed.
End FallbackFacts.

Section BlockedItem.
Context {E : Type}.
Variable C : Collaborators E.

Lemma startDistrict_ok (runId : string) (d : District) (w : World E) (p : ScrapeProgress) :
  progressOf runId w = Some p ->
  exists w' p',
    startDistrict runId d w = (Resolved tt, w')
    /\ progressOf runId w' = Some p' /\ stats p' = bumpStats (stats p) (-1) 1 0 0
    /\ districts (db w') = districts (db w)
    /\ districtContacts (db w') = districtContacts (db w)
    /\ district_logs (db w') = district_logs (db w)
    /\ env w' = env w /\ trace w' = trace w /\ limiter w' = limiter w
    /\ tracker w' = tracker w /\ clock w' = clock w.
Proof.
  intros Hp. unfold progressOf in *.
  unfold startDistrict, bind, dateNow, updateProgress, getDb, putDb. cbn. rewrite Hp. cbn.
  eexists _, _. split; [reflexivity|]. cbn. rewrite lookup_insert_eq. done.
Qed.

Lemma updateDistrictStatus_ok (id : string) (st : DistrictStatus) (w : World E) (x : District) :
  districts (db w) !! id = Some x ->
  exists w' x',
    updateDistrictStatus id st None w = (Resolved tt, w')
    /\ districts (db w') !! id = Some x' /\ d_status x' = st
    /\ scrape_progress (db w') = scrape_progress (db w)
    /\ districtContacts (db w') = districtContacts (db w)
    /\ district_logs (db w') = district_logs (db w)
    /\ env w' = env w /\ trace w' = trace w /\ limiter w' = limiter w
    /\ tracker w' = tracker w /\ clock w' = clock w.
Proof.
  intros Hx. unfold updateDistrictStatus, bind, dateNow, getDb, putDb. cbn. rewrite Hx. cbn.
  eexists _, _. split; [reflexivity|]. cbn. rewrite lookup_insert_eq. done.
Qed.

Lemma completeDistrict_ok (runId : string) (d : District) (n : Z) (w : World E)
    (p : ScrapeProgress) :
  progressOf runId w = Some p ->
  exists w' p',
    completeDistrict runId d n w = (Resolved tt, w')
    /\ progressOf runId w' = Some p' /\ stats p' = bumpStats (stats p) 0 (-1) 1 0
    /\ districts (db w') = districts (db w)
    /\ districtContacts (db w') = districtContacts (db w)
    /\ env w' = env w /\ trace w' = trace w /\ limiter w' = limiter w
    /\ tracker w' = tracker w.
Proof.
  intros Hp. unfold progressOf in *.
  unfold completeDistrict, bind, dateNow, updateProgress, getDb, putDb. cbn. rewrite Hp. cbn.
  eexists _, _. split; [reflexivity|]. cbn. rewrite lookup_insert_eq. done.
Qed.

Lemma waitForToken_ok (n : nat) (url : option string) (w : World E) :
  sane (limiter w) ->
  exists w' evs,
    waitForToken (hostname C) (S n) url w = (Resolved tt, w')
    /\ sameButBuckets w w'
    /\ trace w' = trace w ++ evs /\ invocationsOf "scrapeDistrict" evs = 0%nat.
Proof.
  intros [Hcap Hrate].
  destruct (waitForToken_terminates (hostname C) n url w Hcap Hrate) as (w' & Hrun).
  pose proof (sameButBuckets_waitForToken C (S n) url w) as Hsame.
  destruct (emitsOnly_waitForToken _ ordinary_no_scrape C (S n) url w) as (evs & Htr & Hall).
  rewrite Hrun in Hsame, Htr. cbn in Hsame, Htr.
  exists w', evs. split; [done|]. split; [done|]. split; [done|].
  by apply scrapes_ordinary.
Qed.

Lemma pipeline_blocked_completes (n : nat) (d : District) (t : Z) (w : World E)
    (runId : string) (p : ScrapeProgress) (x : District) (errs : nat -> JsValue) :
  tracker w = Some runId ->
  progressOf runId w = Some p ->
  districts (db w) !! d_id d = Some x ->
  (forall l, In l (district_logs (db w)) ->
             dl_runId l = runId -> dl_districtId l = d_id d -> dl_status l <> LogSuccess) ->
  truthy (d_website d) = true ->
  sane (limiter w) ->
  (forall i, (i < 6)%nat ->
     fst (scraper_scrapeDistrict C d (afterCalls (scraper_scrapeDistrict C d) i (env w)))
     = Rejected (errs i)) ->
  messageOf (errs 5%nat) = Some "CAPTCHA_DETECTED"%string ->
  (forall e, exists r, fst (cde_loadDistrictContacts C e) = Resolved r) ->
  (forall emails e, exists r, fst (verifier_verifyBatch C emails e) = Resolved r) ->
  (forall emails e, exists r, fst (verifier_retryGreylisted C emails e) = Resolved r) ->
  exists w' evs x' dc p',
    pipeline C (S n) d t w = (Resolved tt, w')
    /\ trace w' = trace w ++ evs
    /\ invocationsOf "scrapeDistrict" evs = 6%nat
    /\ districts (db w') !! d_id d = Some x' /\ d_status x' = StCompleted
    /\ districtContacts (db w') !! d_id d = Some dc
    /\ (forall c, In c (fallbackContacts (extractDomainFromWebsite C (d_website d))) ->
          exists c', In c' (dc_contacts dc)
                     /\ email c' = email c /\ confidence c' = Some 60%Z)
    /\ progressOf runId w' = Some p'
    /\ completed (stats p') = (completed (stats p) + 1)%Z
    /\ failed (stats p') = failed (stats p)
    /\ tracker w' = tracker w.
Proof.
  intros Htk Hp Hx Hlogs Hsite Hsane Hfail Hblocked Hcde Hverify Hgrey.
  unfold pipeline.
  rewrite (bind_resolved _ _ _ _ _ (progressTracker_Some w runId Htk)).
  rewrite (bind_resolved _ _ _ _ _ (isDistrictProcessed_false runId (d_id d) w Hlogs)).
  (* startDistrict *)
  destruct (startDistrict_ok runId d w p Hp)
    as (wb & p1 & Hb & Hpb & Hsb & Hdb1 & Hcb & Hlb & Heb & Htb & Hlimb & Htkb & _).
  rewrite (bind_resolved _ _ _ _ _ Hb).
  (* updateDistrictStatus processing *)
  destruct (updateDistrictStatus_ok (d_id d) StProcessing wb x ltac:(by rewrite Hdb1))
    as (wc & x1 & Hc & Hxc & _ & Hpc & Hcc & Hlc & Hec & Htc & Hlimc & Htkc & _).
  rewrite (bind_resolved _ _ _ _ _ Hc).
  (* waitForToken *)
  destruct (waitForToken_ok n (d_website d) wc ltac:(by rewrite Hlimc, Hlimb))
    as (wd & evsd & Hd & (Hed & Hdbd & Htkd & Hmd & Hrd) & Htd & Hnd).
  rewrite (bind_resolved _ _ _ _ _ Hd).
  (* acquireContacts *)
  destruct (acquireContacts_fallback C d (extractDomainFromWebsite C (d_website d)) errs wd)
    as (we & evse & He & Hte & Hne & _ & Hee & Hdbe & Hlime & Htke); [done| |done|].
  { intros i Hi. rewrite Hed, Hec, Heb. by apply Hfail. }
  rewrite (bind_resolved _ _ _ _ _ He).
  (* loadDistrictContacts *)
  destruct (Hcde (env we)) as [cde Hcde'].
  assert (Hf : exists e', call "loadDistrictContacts" "" (cde_loadDistrictContacts C) we
                          = (Resolved cde, setEnv (record we (EvCall "loadDistrictContacts" "")) e')).
  { unfold call. destruct (cde_loadDistrictContacts C (env we)) as [o e']. cbn in Hcde'.
    subst o. by exists e'. }
  destruct Hf as [e' Hf]. rewrite (bind_resolved _ _ _ _ _ Hf).
  set (wf := setEnv (record we (EvCall "loadDistrictContacts" "")) e').
  set (contacts := generateMissing C (extractDomainFromWebsite C (d_website d))
                     (fallbackContacts (extractDomainFromWebsite C (d_website d))
                      ++ List.map fromCde (default [] (mapGet cde (d_id d))))).
  (* verifyContacts *)
  destruct (verifyContacts_spec C contacts wf Hverify Hgrey)
    as (f & wg & evsg & Hg & Hkeep & Htg & Hng & Hdbg & Hlimg & Htkg).
  rewrite (bind_resolved _ _ _ _ _ Hg).
  erewrite bind_resolved by reflexivity.
  (* saveDistrictContacts *)
  set (dc := {| dc_districtId := d_id d; dc_districtName := d_name d;
                dc_county := d_county d; dc_website := d_website d;
                dc_contacts := List.map f contacts; dc_scrapedAt := clock wg |}).
  assert (Hh : withRetry (saveDistrictContacts dc) (Some RetryConfigs_database) wg
               = (Resolved tt, setDb wg (setDistrictContacts (db wg)
                                           (<[d_id d := dc]> (districtContacts (db wg))))))
    by (by apply withRetry_first_success).
  rewrite (bind_resolved _ _ _ _ _ Hh).
  set (wh := setDb wg _).
  (* updateDistrictStatus completed *)
  assert (Hdbf : db wf = db wc) by (subst wf; cbn; by rewrite Hdbe, Hdbd).
  destruct (updateDistrictStatus_ok (d_id d) StCompleted wh x1)
    as (wi & x2 & Hi & Hxi & Hsi & Hpi & Hci & Hli & Hei & Hti & Hlimi & Htki & _).
  { subst wh. cbn. by rewrite Hdbg, Hdbf. }
  rewrite (bind_resolved _ _ _ _ _ Hi).
  erewrite bind_resolved by reflexivity.
  assert (Htki' : tracker wi = Some runId).
  { rewrite Htki. subst wh wf. cbn. rewrite Htkg. cbn. by rewrite Htke, Htkd, Htkc, Htkb. }
  rewrite (bind_resolved _ _ _ _ _ (progressTracker_Some wi runId Htki')).
  (* completeDistrict *)
  destruct (completeDistrict_ok runId d (Z.of_nat (length (List.map f contacts))) wi p1)
    as (wj & p2 & Hj & Hpj & Hsj & Hdj & Hcj & Hej & Htj & Hlimj & Htkj).
  { unfold progressOf in *. rewrite Hpi. subst wh. cbn. rewrite Hdbg, Hdbf, Hpc. exact Hpb. }
  rewrite (bind_resolved _ _ _ _ _ Hj).
  (* the result *)
  eexists _, (evsd ++ evse ++ [EvCall "loadDistrictContacts" ""] ++ evsg
              ++ [EvDistrict "district_complete" (d_id d)]), x2, dc, p2.
  split; [reflexivity|].
  split.
  { cbn. rewrite Htj, Hti. subst wh. cbn. rewrite Htg. subst wf. cbn.
    rewrite Hte, Htd, Htc, Htb, <- !app_assoc. reflexivity. }
  split.
  { rewrite !invocationsOf_app, Hnd, Hne, Hng. reflexivity. }
  cbn.
  split; [by rewrite Hdj|]. split; [done|].
  split.
  { rewrite Hcj, Hci. subst wh. cbn. by rewrite lookup_insert_eq. }
  split.
  { intros c Hc0. destruct (fallbackContacts_spec _ c Hc0) as [Htruthy Hconf].
    exists (f c). split.
    - cbn. apply in_map. subst contacts. apply generateMissing_keeps; [done|].
      apply in_or_app. by left.
    - destruct (Hkeep c) as [-> ->]. done. }
  split; [exact Hpj|].
  rewrite Hsj, Hsb. cbn. split; [lia|]. split; [lia|].
  rewrite Htkj, Htki. subst wh wf. cbn. rewrite Htkg. cbn. by rewrite Htke, Htkd, Htkc, Htkb.
Qed.
End BlockedItem.

(** C5, as the code has it -- Blocked fallback.  The acquisition stage runs
    under the network preset of [withRetry], for which every error is
    retryable: a blocked condition is retried like any other failure.  When
    all six attempts fail and the last one raises the blocked condition
    (message CAPTCHA_DETECTED), the orchestrator substitutes the department
    contacts generated from the domain of the site, each with confidence 60,
    and, the later stages succeeding, the item ends with status completed
    and counts as completed, not failed, in the progress of the run. *)
Theorem blocked_fallback_after_retries :
  forall (E : Type) (C : Collaborators E) (fuel : nat) (d : District) (w : World E)
    (runId : string) (p : ScrapeProgress) (x : District) (errs : nat -> JsValue),
    let domain := extractDomainFromWebsite C (d_website d) in
    tracker w = Some runId ->
    progressOf runId w = Some p ->
    districts (db w) !! d_id d = Some x ->
    (forall l, In l (district_logs (db w)) ->
               dl_runId l = runId -> dl_districtId l = d_id d -> dl_status l <> LogSuccess) ->
    truthy (d_website d) = true ->
    sane (limiter w) -> (1 <= fuel)%nat ->
    (forall i, (i < 6)%nat ->
       fst (scraper_scrapeDistrict C d (afterCalls (scraper_scrapeDistrict C d) i (env w)))
       = Rejected (errs i)) ->
    messageOf (errs 5%nat) = Some "CAPTCHA_DETECTED"%string ->
    (forall e, exists r, fst (cde_loadDistrictContacts C e) = Resolved r) ->
    (forall emails e, exists r, fst (verifier_verifyBatch C emails e) = Resolved r) ->
    (forall emails e, exists r, fst (verifier_retryGreylisted C emails e) = Resolved r) ->
    (* the acquisition stage is retried, then replaced by the fallback *)
    (exists wa evs,
        acquireContacts C d domain w = (Resolved (fallbackContacts domain), wa)
        /\ trace wa = trace w ++ evs
        /\ invocationsOf "scrapeDistrict" evs = 6%nat
        /\ sleepsOf evs
           = List.map (backoffDelay (mergeOptions (E := E) (Some RetryConfigs_network))) (seq 0 5))
    /\ (forall c, In c (fallbackContacts domain) ->
          truthy (email c) = true /\ confidence c = Some 60%Z)
    (* and the item completes *)
    /\ exists w' evs x' dc p',
         processDistrict C fuel d w = (Resolved tt, w')
         /\ trace w' = trace w ++ evs
         /\ invocationsOf "scrapeDistrict" evs = 6%nat
         /\ districts (db w') !! d_id d = Some x' /\ d_status x' = StCompleted
         /\ districtContacts (db w') !! d_id d = Some dc
         /\ (forall c, In c (fallbackContacts domain) ->
               exists c', In c' (dc_contacts dc)
                          /\ email c' = email c /\ confidence c' = Some 60%Z)
         /\ progressOf runId w' = Some p'
         /\ completed (stats p') = (completed (stats p) + 1)%Z
         /\ failed (stats p') = failed (stats p).
Proof.
  intros E C fuel d w runId p x errs domain Htk Hp Hx Hlogs Hsite Hsane Hfuel Hfail Hblocked
    Hcde Hverify Hgrey.
  split; [|split].
  - destruct (acquireContacts_fallback C d domain errs w Hsite Hfail Hblocked)
      as (wa & evs & Ha & Htr & Hn & Hs & _).
    by exists wa, evs.
  - apply fallbackContacts_spec.
  - destruct fuel as [|n]; [lia|].
    destruct (pipeline_blocked_completes C n d (clock w)
                (record w (EvDistrict "district_start" (d_id d))) runId p x errs)
      as (w' & evs & x' & dc & p' & Hrun & Htr & Hn & Hx' & Hst & Hdc & Hfb & Hp' & Hc & Hf & _);
      try done.
    exists w', (EvDistrict "district_start" (d_id d) :: evs), x', dc, p'.
    split.
    { unfold processDistrict, bind, dateNow, emit, tryCatch. cbn. by rewrite Hrun. }
    split; [rewrite Htr; cbn; by rewrite <- app_assoc|].
    split; [|done].
    change (EvDistrict "district_start" (d_id d) :: evs)
      with ([EvDistrict "district_start" (d_id d)] ++ evs).
    by rewrite invocationsOf_app, Hn.
Qed.

Lemma blocked_fallback_after_retries_witness :
  exists w' evs x' dc p',
    processDistrict sampleCollaborators 1 blockedDistrict batchWorld = (Resolved tt, w')
    /\ trace w' = trace batchWorld ++ evs
    /\ invocationsOf "scrapeDistrict" evs = 6%nat
    /\ districts (db w') !! "blocked"%string = Some x' /\ d_status x' = StCompleted
    /\ districtContacts (db w') !! "blocked"%string = Some dc
    /\ (forall c, In c (fallbackContacts (Some "gamma.example.org"%string)) ->
          exists c', In c' (dc_contacts dc)
                     /\ email c' = email c /\ confidence c' = Some 60%Z)
    /\ progressOf "run_new" w' = Some p'
    /\ completed (stats p') = (0 + 1)%Z
    /\ failed (stats p') = 0%Z.
Proof.
  destruct (blocked_fallback_after_retries nat sampleCollaborators 1 blockedDistrict batchWorld
              "run_new"%string
              {| sp_runId := "run_new"; sp_startedAt := 0; sp_updatedAt := 0;
                 sp_completedAt := None; sp_status := RunRunning;
                 stats := {| total := 3; pending := 3; processing := 0; completed := 0;
                             failed := 0 |};
                 errors := []; currentDistrict := None; sp_fatalError := None |}
              blockedDistrict
              (fun _ => newError "CAPTCHA_DETECTED")) as (_ & _ & Hitem).
  - reflexivity.
  - reflexivity.
  - reflexivity.
  - intros l [].
  - reflexivity.
  - split; by vm_compute.
  - lia.
  - intros i Hi. reflexivity.
  - reflexivity.
  - intros e. by eexists.
  - intros emails e. by eexists.
  - intros emails e. by eexists.
  - exact Hitem.
Defined.

(** C5 as stated fails: an acquisition stage that raises the blocked
    condition is called again, five more times, with the waits of the
    network preset in between. *)
Lemma blocked_acquisition_is_retried :
  fst (scraper_scrapeDistrict sampleCollaborators blockedDistrict (env batchWorld))
  = Rejected (newError "CAPTCHA_DETECTED")
  /\ invocationsOf "scrapeDistrict"
       (trace (snd (acquireContacts sampleCollaborators blockedDistrict
                      (Some "gamma.example.org"%string) batchWorld))) = 6%nat
  /\ sleepsOf (trace (snd (acquireContacts sampleCollaborators blockedDistrict
                             (Some "gamma.example.org"%string) batchWorld)))
     = [1000; 2000; 4000; 8000; 16000]%Q.
Proof. vm_compute. repeat split. Qed.

(** ** A resumed run *)

Section EmitsAt.
Context {E : Type}.
Variable P : Event -> Prop.

Lemma emitsOnly_emitsAt {A} (m : M E A) (w : World E) : emitsOnly P m -> emitsAt P m w.
Proof. intros H. apply H. Qed.

Lemma emitsAt_bind {A B} (m : M E A) (k : A -> M E B) (w : World E) :
  emitsAt P m w ->
  (forall a w1, m w = (Resolved a, w1) -> emitsAt P (k a) w1) ->
  emitsAt P (bind m k) w.
Proof.
  intros (evs & Htr & Hall) Hk. unfold emitsAt, bind.
  destruct (m w) as [[a|e|] w1] eqn:Hm; cbn in *; try by exists evs.
  destruct (Hk a w1 eq_refl) as (evs' & Htr' & Hall'). exists (evs ++ evs').
  rewrite Htr', Htr, app_assoc. split; [done|]. by apply Forall_app.
Qed.

Lemma emitsAt_tryCatch {A} (body : M E A) (handler : JsValue -> M E A) (w : World E) :
  emitsAt P body w -> (forall e, emitsOnly P (handler e)) ->
  emitsAt P (tryCatch body handler) w.
Proof.
  intros (evs & Htr & Hall) Hk. unfold emitsAt, tryCatch.
  destruct (body w) as [[a|e|] w1]; cbn in *; try by exists evs.
  destruct (Hk e w1) as (evs' & Htr' & Hall'). exists (evs ++ evs').
  rewrite Htr', Htr, app_assoc. split; [done|]. by apply Forall_app.
Qed.

Lemma emitsAt_tryFinally {A} (body : M E A) (cleanup : M E unit) (w : World E) :
  emitsAt P body w -> emitsOnly P cleanup -> emitsAt P (tryFinally body cleanup) w.
Proof.
  intros (evs & Htr & Hall) Hk. unfold emitsAt, tryFinally.
  destruct (Hk (snd (body w))) as (evs' & Htr' & Hall').
  destruct (body w) as [[a|e|] w1]; cbn in *; try by exists evs.
  - exists (evs ++ evs'). split; [|by apply Forall_app].
    destruct (cleanup w1) as [[[]|e'|] w2]; cbn in *; by rewrite Htr', Htr, app_assoc.
  - exists (evs ++ evs'). split; [|by apply Forall_app].
    destruct (cleanup w1) as [[[]|e'|] w2]; cbn in *; by rewrite Htr', Htr, app_assoc.
Qed.

End EmitsAt.

Section ResumedRun.
Context {E : Type}.
Variable C : Collaborators E.
Variable fuel : nat.

(** [initialize] does not touch the store. *)
Lemma initialize_db (w : World E) : db (snd (initialize C w)) = db w.
Proof.
  unfold initialize, bind, emit, call, putTracker. cbn.
  destruct (scraper_initialize C (env w)) as [[[]|e|] e1]; cbn; try done.
  destruct (pdf_initialize C e1) as [[[]|e|] e2]; cbn; try done.
  by destruct (generateRunId C e2) as [r e3].
Qed.

(** On a store that holds a district, the districts of the run are the
    pending ones of the store. *)
Lemma loadOrGetDistricts_resume (w : World E) (k : string) (x : District) :
  districts (db w) !! k = Some x ->
  exists ds, loadOrGetDistricts C w = (Resolved ds, w)
             /\ forall d, In d ds ->
                  exists k', districts (db w) !! k' = Some d /\ d_status d = StPending.
Proof.
  intros Hk. unfold loadOrGetDistricts, getProcessingStats, bind, getDb, ret. cbn.
  destruct (Z.of_nat _ =? 0)%Z eqn:Hz.
  - exfalso. apply Z.eqb_eq in Hz.
    apply (proj2 (In_docsOf _ _ _)) in Hk.
    apply (in_map snd) in Hk. destruct (List.map snd (docsOf (districts (db w)))); [done|].
    cbn in Hz. lia.
  - unfold getPendingDistricts, bind, getDb, ret. eexists. split; [reflexivity|].
    intros d Hd. rewrite <- list_elem_of_In, merge_sort_Permutation, list_elem_of_In in Hd.
    apply filter_In in Hd as [Hd Hst]. apply bool_decide_eq_true in Hst.
    apply in_map_iff in Hd as ([k' d'] & Heq & Hin). cbn in Heq. subst d'.
    exists k'. split; [by apply In_docsOf|done].
Qed.

(** [initializeRun] writes the progress document only. *)
Lemma initializeRun_db (runId : string) (n : Z) (w : World E) :
  districts (db (snd (initializeRun runId n w))) = districts (db w)
  /\ district_logs (db (snd (initializeRun runId n w))) = district_logs (db w).
Proof. unfold initializeRun, bind, dateNow, getDb, putDb, emit. by cbn. Qed.

Lemma resumePolicy_ordinary (d : Firestore) (ev : Event) :
  ordinary ev = true -> resumePolicy d ev.
Proof. intros H. by left. Qed.

Lemma resumePolicy_scraped (d : Firestore) (evs : list Event) :
  Forall (resumePolicy d) evs ->
  forall id, In id (scrapedDistricts evs) -> openIn d id.
Proof.
  induction 1 as [|ev evs Hev _ IH]; intros id Hin; [done|].
  destruct ev as [operation argument| | | |]; cbn in Hin; try by apply IH.
  destruct (String.eqb operation "scrapeDistrict") eqn:Hop; [|by apply IH].
  destruct Hin as [<-|Hin]; [|by apply IH].
  destruct Hev as [Hord|(id & Hopen & [Heq|Heq])]; [|congruence|done].
  cbn in Hord. by rewrite Hop in Hord.
Qed.

(** The body of a run resumed from a store that holds a district. *)
Lemma runBody_resumed (startTime : Z) (w : World E) (k : string) (x : District) :
  districts (db w) !! k = Some x ->
  emitsAt (resumePolicy (db w)) (runBody C fuel startTime) w.
Proof.
  intros Hk. set (d0 := db w).
  assert (Hord : forall ev, ordinary ev = true -> resumePolicy d0 ev)
    by apply resumePolicy_ordinary.
  unfold runBody.
  apply emitsAt_bind; [by apply emitsOnly_initialize|]. intros [] w1 Hinit.
  assert (Hdb1 : db w1 = d0).
  { pose proof (initialize_db w) as H. by rewrite Hinit in H. }
  assert (Hk1 : districts (db w1) !! k = Some x) by by rewrite Hdb1.
  destruct (loadOrGetDistricts_resume w1 k x Hk1) as (ds & Hload & Hds).
  apply emitsAt_bind; [by apply emitsOnly_loadOrGetDistricts|].
  intros ds' w1' Heq. rewrite Hload in Heq. injection Heq as <- <-.
  apply emitsAt_bind; [apply emitsOnly_emit; by apply Hord|]. intros [] w2 Hw2.
  apply emitsAt_bind; [apply emitsOnly_emit; by apply Hord|]. intros [] w3 Hw3.
  unfold emit in Hw2, Hw3. injection Hw2 as <-. injection Hw3 as <-.
  apply emitsAt_bind; [by apply emitsOnly_progressTracker|]. intros runId w4 Hw4.
  assert (w4 = record (record w1 (EvLog LvInfo "Processing districts..."))
                 (EvLog LvInfo "Scraper event: run_started")) as ->.
  { unfold progressTracker, bind, getTracker, ret, throw in Hw4. cbn in Hw4.
    destruct (tracker w1); by inversion Hw4. }
  apply emitsAt_bind; [by apply emitsOnly_initializeRun|]. intros [] w5 Hw5.
  match type of Hw5 with
  | initializeRun _ _ ?w0 = _ =>
      pose proof (initializeRun_db runId (Z.of_nat (length ds)) w0) as [Hd5 Hl5]
  end.
  rewrite Hw5 in Hd5, Hl5. cbn in Hd5, Hl5.
  destruct (getUnprocessedDistricts_spec runId w5) as (ids & Hget & _ & Hids).
  apply emitsAt_bind.
  { apply emitsOnly_emitsAt. unfold getUnprocessedDistricts.
    apply emitsOnly_bind; [by apply emitsOnly_frame|]. intros a. apply emitsOnly_ret. }
  intros ids' w5' Heq. rewrite Hget in Heq. injection Heq as <- <-.
  apply emitsOnly_emitsAt.
  apply emitsOnly_bind.
  { destruct (_ <? _)%nat; [apply emitsOnly_emit; by apply Hord|apply emitsOnly_ret]. }
  intros _. apply emitsOnly_bind.
  { apply emitsOnly_batchLoop; [done|].
    apply Forall_forall. intros d Hd. rewrite list_elem_of_In in Hd.
    unfold selectUnprocessed in Hd. apply filter_In in Hd as [Hd Hsel].
    apply has_In, Hids in Hsel as [(y & Hy & Hopen) _].
    destruct (Hds d Hd) as (k' & Hk' & Hst).
    assert (openIn d0 (d_id d)) as Hin.
    { split.
      - exists y. split; [|done]. rewrite Hd5 in Hy. by rewrite <- Hdb1.
      - exists k', d. split; [by rewrite <- Hdb1|done]. }
    split; right; exists (d_id d); (split; [done|]); [by left|by right]. }
  intros _. apply emitsOnly_bind; [by apply emitsOnly_progressTracker|].
  intros r. apply emitsOnly_bind; [by apply emitsOnly_completeRun|].
  intros _. by apply emitsOnly_exportResults.
Qed.

(** A run resumed from a store that holds a district enters the
    acquisition stage only for districts that are open in that store. *)
Lemma run_resumed (w : World E) (k : string) (x : District) :
  districts (db w) !! k = Some x ->
  exists evs, trace (snd (run C fuel w)) = trace w ++ evs
              /\ forall id, In id (scrapedDistricts evs) -> openIn (db w) id.
Proof.
  intros Hk.
  assert (Hord : forall ev, ordinary ev = true -> resumePolicy (db w) ev)
    by apply resumePolicy_ordinary.
  assert (emitsAt (resumePolicy (db w)) (run C fuel) w) as (evs & Htr & Hall).
  { unfold run. apply emitsAt_bind; [by apply emitsOnly_frame|].
    intros t w1 Heq. unfold dateNow in Heq. injection Heq as <- <-.
    apply emitsAt_tryFinally; [|by apply emitsOnly_cleanup].
    apply emitsAt_tryCatch; [by apply (runBody_resumed _ _ k x)|].
    intros e. apply emitsOnly_bind; [apply emitsOnly_emit; by apply Hord|].
    intros _. apply emitsOnly_bind; [by apply emitsOnly_progressTracker|].
    intros r. apply emitsOnly_bind; [by apply emitsOnly_failRun|].
    intros _. apply emitsOnly_throw. }
  exists evs. split; [done|]. by apply resumePolicy_scraped.
Qed.
End ResumedRun.

Lemma openIn_resumeStore (id : string) :
  openIn resumeStore id -> id = "4"%string \/ id = "5"%string.
Proof.
  intros [(x & Hx & Hopen) _]. cbn [resumeStore districts] in Hx.
  apply elem_of_list_to_map_2 in Hx.
  repeat (apply elem_of_cons in Hx as [Hx|Hx];
          [injection Hx as -> ->; cbn in Hopen; first [by left | by right | by destruct Hopen]|]).
  by apply elem_of_nil in Hx.
Qed.

(** C4 -- Resumability.  For every store, the unprocessed set computed by
    [getUnprocessedDistricts] resolves, without changing anything, to a
    duplicate-free list of exactly the document ids whose global status is
    pending or processing and that have no success record carrying the
    current run id.  A run started on a store that already holds districts
    enters the acquisition stage only for districts that are open in that
    store, whatever the collaborators do.  For the five districts of which
    a prior run completed the first three, the unprocessed set of a new run
    is exactly 4 and 5, and the run never enters the acquisition stage for
    another district. *)
Theorem resumability :
  forall (E : Type) (C : Collaborators E) (fuel : nat) (runId : string) (w : World E)
    (k : string) (x : District),
    districts (db w) !! k = Some x ->
    (exists ids,
        getUnprocessedDistricts runId w = (Resolved ids, w)
        /\ NoDup ids
        /\ forall id, In id ids <-> unprocessedSpec runId (db w) id)
    /\ (exists evs,
           trace (snd (run C fuel w)) = trace w ++ evs
           /\ forall id, In id (scrapedDistricts evs) -> openIn (db w) id)
    /\ (forall e : E,
           getUnprocessedDistricts "run_new" (resumeWorld e)
           = (Resolved ["4"; "5"]%string, resumeWorld e)
           /\ forall id,
               In id (scrapedDistricts (trace (snd (run C fuel (resumeWorld e))))) ->
               id = "4"%string \/ id = "5"%string).
Proof.
  intros E C fuel runId w k x Hk. split; [|split].
  - apply getUnprocessedDistricts_spec.
  - by apply (run_resumed C fuel w k x).
  - intros e. split; [by vm_compute|].
    intros id Hid.
    destruct (run_resumed C fuel (resumeWorld e) "4"%string
                (sampleDistrict "4" "Delta" (Some "https://delta.example.org"%string) StPending))
      as (evs & Htr & Hopen); [by vm_compute|].
    rewrite Htr in Hid. cbn [resumeWorld setDb sampleWorld trace app] in Hid.
    apply openIn_resumeStore. by apply Hopen.
Qed.

Lemma resumability_witness :
  (exists ids,
      getUnprocessedDistricts "run_new" (resumeWorld 0%nat) = (Resolved ids, resumeWorld 0%nat)
      /\ NoDup ids
      /\ forall id, In id ids <-> unprocessedSpec "run_new" (db (resumeWorld 0%nat)) id)
  /\ scrapedDistricts (trace (snd (run sampleCollaborators 1 (resumeWorld 0%nat))))
     = ["4"; "5"]%string.
Proof.
  destruct (resumability nat sampleCollaborators 1 "run_new"%string (resumeWorld 0%nat)
              "4"%string
              (sampleDistrict "4" "Delta" (Some "https://delta.example.org"%string) StPending))
    as (Hids & _ & _).
  - reflexivity.
  - split; [exact Hids|]. by vm_compute.
Defined.
